(** * Configuration loader and structured logger: a shallow embedding

    The development follows [src/utlis/config_loader.py] and
    [src/logger/custom_logger.py].  Python library functions the two modules
    call ([os.path], [pathlib], [datetime.strftime], [logging.basicConfig])
    are transcribed for the POSIX flavour; the file system, the process
    environment and the YAML parser are inputs of the model. *)

From Stdlib Require Import String Ascii List Bool Arith ZArith Lia.
From Stdlib Require Import Floats DecimalString.
Import ListNotations.
Open Scope string_scope.
Set Warnings "-register-all".

(** ** Python [str] helpers *)

Module pystr.

Definition sep : ascii := "/"%char.

Definition is_sep (c : ascii) : bool := Ascii.eqb c sep.

(** [s.startswith("/")] *)
Definition startswith_sep (s : string) : bool :=
  match s with
  | String c _ => is_sep c
  | EmptyString => false
  end.

(** [s.endswith("/")] *)
Fixpoint endswith_sep (s : string) : bool :=
  match s with
  | EmptyString => false
  | String c EmptyString => is_sep c
  | String _ s' => endswith_sep s'
  end.

(** ["/" in s] *)
Fixpoint contains_sep (s : string) : bool :=
  match s with
  | EmptyString => false
  | String c s' => is_sep c || contains_sep s'
  end.

(** [s == "/" * len(s)] *)
Fixpoint all_sep (s : string) : bool :=
  match s with
  | EmptyString => true
  | String c s' => is_sep c && all_sep s'
  end.

(** [s.split("/")]: never empty, one more item than there are slashes. *)
Fixpoint split (s : string) : list string :=
  match s with
  | EmptyString => [EmptyString]
  | String c s' =>
      if is_sep c then EmptyString :: split s'
      else match split s' with
           | h :: t => String c h :: t
           | [] => [String c EmptyString]
           end
  end.

(** ["/".join(l)] *)
Definition join (l : list string) : string := String.concat "/" l.

(** [s.rstrip("/")] *)
Fixpoint rstrip (s : string) : string :=
  match s with
  | EmptyString => EmptyString
  | String c s' =>
      match rstrip s' with
      | EmptyString => if is_sep c then EmptyString else String c EmptyString
      | r => String c r
      end
  end.

(** [s[: s.rfind("/") + 1]]: everything up to and including the last slash. *)
Fixpoint upto_last_sep (s : string) : string :=
  match s with
  | EmptyString => EmptyString
  | String c s' =>
      if contains_sep s then String c (upto_last_sep s') else EmptyString
  end.

(** [s[s.rfind("/") + 1 :]]: what follows the last slash. *)
Fixpoint after_last_sep (s : string) : string :=
  match s with
  | EmptyString => EmptyString
  | String c s' => if contains_sep s then after_last_sep s' else s
  end.

(** Python truthiness of a [str]. *)
Definition nonempty (s : string) : bool :=
  match s with
  | EmptyString => false
  | String _ _ => true
  end.

End pystr.

(** ** [posixpath] (the [os.path] of a POSIX host) *)

Module posixpath.

Import pystr.

Definition isabs (s : string) : bool := startswith_sep s.

(** [os.path.dirname] *)
Definition dirname (p : string) : string :=
  let head := upto_last_sep p in
  if nonempty head && negb (all_sep head) then rstrip head else head.

(** One step of the loop of [os.path.join]. *)
Definition join2 (path b : string) : string :=
  if startswith_sep b then b
  else if negb (nonempty path) || endswith_sep path then path ++ b
  else path ++ "/" ++ b.

(** [os.path.join(a, *p)] *)
Definition join (a : string) (p : list string) : string := fold_left join2 p a.

(** Number of leading slashes [normpath] keeps: POSIX gives exactly two
    leading slashes a meaning of their own. *)
Definition initial_slashes (path : string) : nat :=
  match path with
  | String c1 (String c2 (String c3 _)) =>
      if is_sep c1 then (if is_sep c2 && negb (is_sep c3) then 2 else 1) else 0
  | String c1 (String c2 EmptyString) =>
      if is_sep c1 then (if is_sep c2 then 2 else 1) else 0
  | String c1 EmptyString => if is_sep c1 then 1 else 0
  | EmptyString => 0
  end.

(** Body of the component loop of [normpath]; [new_comps] is kept reversed
    so that its last item is the head of the list. *)
Definition normpath_step (slashes : nat) (new_comps : list string) (comp : string)
  : list string :=
  if (comp =? "") || (comp =? ".") then new_comps
  else if negb (comp =? "..")
          || (Nat.eqb slashes 0 && match new_comps with [] => true | _ => false end)
          || match new_comps with last :: _ => last =? ".." | [] => false end
       then comp :: new_comps
       else match new_comps with
            | _ :: rest => rest
            | [] => new_comps
            end.

Fixpoint repeat_sep (n : nat) : string :=
  match n with
  | O => EmptyString
  | S n' => String sep (repeat_sep n')
  end.

(** [os.path.normpath] *)
Definition normpath (path : string) : string :=
  if negb (nonempty path) then "."
  else
    let slashes := initial_slashes path in
    let comps := rev (fold_left (normpath_step slashes) (split path) []) in
    let path' := repeat_sep slashes ++ pystr.join comps in
    if nonempty path' then path' else ".".

(** [os.path.abspath], with the current directory of the process as [cwd]. *)
Definition abspath (cwd path : string) : string :=
  normpath (if isabs path then path else join cwd [path]).

(** [os.path.basename], the second half of [os.path.split]. *)
Definition basename (p : string) : string := after_last_sep p.

(** Body of the loop of [_joinrealpath] for one component, on a file system
    without symbolic links: every component that is looked up is taken as
    an ordinary directory entry. *)
Definition joinrealpath_step (path name : string) : string :=
  if (name =? "") || (name =? ".") then path
  else if name =? ".." then
    if nonempty path then
      if basename path =? ".." then join (dirname path) [".."; ".."]
      else dirname path
    else ".."
  else join2 path name.

(** [_joinrealpath(filename[:0], filename, ...)] *)
Definition joinrealpath (filename : string) : string :=
  match filename with
  | String c rest =>
      if is_sep c then fold_left joinrealpath_step (split rest) "/"
      else fold_left joinrealpath_step (split filename) EmptyString
  | EmptyString => EmptyString
  end.

(** [os.path.realpath] on a file system without symbolic links. *)
Definition realpath (cwd filename : string) : string :=
  abspath cwd (joinrealpath filename).

End posixpath.

(** ** [pathlib.PurePosixPath] / [pathlib.Path] *)

Module pathlib.

Import pystr.

(** A parsed path: its root (["" ], ["/"] or ["//"]) and its components. *)
Record Path := mkPath { root : string; tail : list string }.

(** [posixpath.splitroot] *)
Definition splitroot (p : string) : string * string :=
  match p with
  | String c1 rest1 =>
      if negb (is_sep c1) then (EmptyString, p)
      else match rest1 with
           | String c2 rest2 =>
               if negb (is_sep c2) then ("/", rest1)
               else match rest2 with
                    | String c3 _ => if is_sep c3 then ("/", rest1) else ("//", rest2)
                    | EmptyString => ("//", rest2)
                    end
           | EmptyString => ("/", rest1)
           end
  | EmptyString => (EmptyString, p)
  end.

Definition keep_part (x : string) : bool := nonempty x && negb (x =? ".").

(** [Path(s)]: repeated slashes and ["."] components vanish, [".."] stays. *)
Definition parse (s : string) : Path :=
  let '(r, rel) := splitroot s in
  mkPath r (filter keep_part (split rel)).

(** [str(path)] *)
Definition to_str (p : Path) : string :=
  if nonempty (root p) then root p ++ pystr.join (tail p)
  else match tail p with
       | [] => "."
       | _ => pystr.join (tail p)
       end.

(** [path.is_absolute()] *)
Definition is_absolute (p : Path) : bool := nonempty (root p).

(** [self / other] for a [Path] operand: an absolute right operand replaces
    the left one. *)
Definition truediv (p q : Path) : Path :=
  if is_absolute q then q else mkPath (root p) (tail p ++ tail q).

(** [self / "segment"] *)
Definition truediv_str (p : Path) (s : string) : Path := truediv p (parse s).

(** A component as [parse] produces them: not empty, not ["."], no slash. *)
Definition plain_part (x : string) : bool := negb (contains_sep x) && keep_part x.

(** The values [parse] can return. *)
Definition well_formed (p : Path) : bool :=
  ((root p =? "") || (root p =? "/") || (root p =? "//")) && forallb plain_part (tail p).

End pathlib.

(** ** Values produced by [yaml.safe_load] *)

(** The Python objects the safe loader can build.  A mapping keeps its items
    in document order, as a Python [dict] does. *)
Inductive yaml : Type :=
| YNull
| YBool (b : bool)
| YInt (n : Z)
| YFloat (f : float)
| YStr (s : string)
| YBytes (b : list Byte.byte)
| YTimestamp (iso : string)
| YSeq (items : list yaml)
| YSet (members : list yaml)
| YMap (items : list (yaml * yaml)).

(** [bool(v)] *)
Definition truthy (v : yaml) : bool :=
  match v with
  | YNull => false
  | YBool b => b
  | YInt n => negb (Z.eqb n 0)
  | YFloat f => negb (PrimFloat.eqb f PrimFloat.zero)
  | YStr s => pystr.nonempty s
  | YBytes b => match b with [] => false | _ => true end
  | YTimestamp _ => true
  | YSeq l => match l with [] => false | _ => true end
  | YSet l => match l with [] => false | _ => true end
  | YMap l => match l with [] => false | _ => true end
  end.

(** [a or b] *)
Definition py_or (a b : yaml) : yaml := if truthy a then a else b.

(** [isinstance(v, dict)] *)
Definition is_dict (v : yaml) : bool :=
  match v with
  | YMap _ => true
  | _ => false
  end.

(** [list(config.keys()) if isinstance(config, dict) else []] *)
Definition top_keys (config : yaml) : list yaml :=
  match config with
  | YMap items => map fst items
  | _ => []
  end.

(** The empty [dict], [{}]. *)
Definition empty_mapping : yaml := YMap [].

(** ** Exceptions *)

(** Modelled from the spec: [src/exceptions/custom_exception.py], the class
    [CustomException], is not among the sources.  The specification describes
    it as the one wrapped error kind that carries a fixed message and the
    original underlying error; the last constructor records the two arguments
    [load_config] passes to it.  The other constructors are the built-in
    classes (all below [Exception]) that the steps of the loader raise, each
    with the text of [str(e)]. *)
Inductive exception : Type :=
| FileNotFoundError (msg : string)
| IsADirectoryError (msg : string)
| PermissionError (msg : string)
| OSError (msg : string)
| UnicodeDecodeError (msg : string)
| YAMLError (msg : string)
| IndexError (msg : string)
| CustomException (error_message : string) (error_details : exception).

(** [str(e)] *)
Definition exn_str (e : exception) : string :=
  match e with
  | FileNotFoundError m | IsADirectoryError m | PermissionError m | OSError m
  | UnicodeDecodeError m | YAMLError m | IndexError m => m
  | CustomException m _ => m
  end.


(** ** Log calls *)

Inductive Level := NOTSET | INFO | WARNING | ERROR.

Inductive FieldValue :=
| FStr (s : string)
| FKeys (keys : list yaml).

(** One call [log.<level>(event, **fields)]. *)
Record LogEvent := mkLogEvent {
  level : Level;
  event : string;
  fields : list (string * FieldValue)
}.

Definition is_error (ev : LogEvent) : bool :=
  match level ev with
  | ERROR => true
  | _ => false
  end.

(** Number of error-level calls in a log. *)
Definition count_errors (log : list LogEvent) : nat :=
  List.length (filter is_error log).

(** ** A monad for code that changes state and raises *)

(** A computation receives the state and returns it changed, with a value or
    the exception it raised. *)
Definition M (St A : Type) : Type := St -> (exception + A) * St.

Definition ret {St A} (a : A) : M St A := fun st => (inr a, st).

Definition bind {St A B} (m : M St A) (k : A -> M St B) : M St B :=
  fun st =>
    match m st with
    | (inr a, st') => k a st'
    | (inl e, st') => (inl e, st')
    end.

Definition raise {St A} (e : exception) : M St A := fun st => (inl e, st).

(** [try: body / except Exception as e: handler(e)]; every class of
    [exception] derives from [Exception]. *)
Definition try_except {St A} (body : M St A) (handler : exception -> M St A) : M St A :=
  fun st =>
    match body st with
    | (inr a, st') => (inr a, st')
    | (inl e, st') => handler e st'
    end.

Definition lift {St A} (r : exception + A) : M St A := fun st => (r, st).

Definition gets {St A} (f : St -> A) : M St A := fun st => (inr (f st), st).

Definition modify {St} (f : St -> St) : M St unit := fun st => (inr tt, f st).

Declare Scope py_scope.
Delimit Scope py_scope with py.
Notation "x <- m ;; k" := (bind m (fun x => k))
  (at level 61, m at next level, right associativity) : py_scope.
Notation "m ;; k" := (bind m (fun _ => k))
  (at level 61, right associativity) : py_scope.

(** The calls made on the module-level logger so far, oldest first. *)
Definition Log : Type := list LogEvent.

(** [log.<level>(event, **fields)] *)
Definition log_call (l : Level) (ev : string) (kw : list (string * FieldValue)) : M Log unit :=
  modify (fun log => (log ++ [mkLogEvent l ev kw])%list).

(** ** The configuration loader, [src/utlis/config_loader.py] *)

(** What [stat] finds at a path, and what opening and reading it yields. *)
Inductive Node :=
| NoEntry
| Inaccessible (e : exception)
| Directory
| RegularFile (read : exception + string).

(** The surroundings of one call: the process environment, the current
    directory, the [__file__] of the loader module and the file system. *)
Record World := mkWorld {
  environ : string -> option string;
  cwd : string;
  config_loader_file : string;
  fs : string -> Node
}.

Module config_loader.

Import pathlib.
Local Open Scope py_scope.

Section Loader.

(** [yaml.safe_load] applied to the text of a file. *)
Variable safe_load : string -> exception + yaml.

Variable w : World.

(** [os.getenv(name)] *)
Definition getenv (name : string) : option string := environ w name.

(** [Path.resolve()] on a file system without symbolic links; where the
    path of the module goes through a link, the properties below hold of the
    path this function is assumed to return. *)
Definition resolve (p : Path) : Path := parse (posixpath.realpath (cwd w) (to_str p)).

(** [path.parents[idx]]: [IndexError] unless the path has more than [idx]
    components. *)
Definition parents (p : Path) (idx : nat) : exception + Path :=
  if Nat.leb (List.length (tail p)) idx
  then inl (IndexError (NilEmpty.string_of_uint (Nat.to_uint idx)))
  else inr (mkPath (root p) (firstn (List.length (tail p) - idx - 1) (tail p))).

(** [_project_root_dir()]; it logs nothing, so its result is given as is. *)
Definition _project_root_dir : exception + Path :=
  parents (resolve (parse (config_loader_file w))) 1.

(** [path.exists()]: errors other than "no such entry" propagate. *)
Definition path_exists (p : Path) : M Log bool :=
  match fs w (to_str p) with
  | NoEntry => ret false
  | Inaccessible e => raise e
  | Directory | RegularFile _ => ret true
  end.

(** [open(path, "r", encoding="utf-8")] followed by reading the stream. *)
Definition open_read (p : Path) : M Log string :=
  match fs w (to_str p) with
  | NoEntry => raise (FileNotFoundError
                        ("[Errno 2] No such file or directory: '" ++ to_str p ++ "'"))
  | Inaccessible e => raise e
  | Directory => raise (IsADirectoryError
                          ("[Errno 21] Is a directory: '" ++ to_str p ++ "'"))
  | RegularFile r => lift r
  end.

(** Step 1 of [load_config]: the string bound to [config_path]. *)
Definition select_config_path (config_path : option string) : M Log string :=
  let env_path := getenv "CONFIG_PATH" in
  match config_path with
  | None =>
      match env_path with
      | Some e =>
          if pystr.nonempty e then ret e
          else root_dir <- lift _project_root_dir ;;
               ret (to_str (truediv_str (truediv_str root_dir "config") "configuration.yaml"))
      | None =>
          root_dir <- lift _project_root_dir ;;
          ret (to_str (truediv_str (truediv_str root_dir "config") "configuration.yaml"))
      end
  | Some p => ret p
  end.

(** Steps 1 and 2: the [path] the loader goes on to test and open. *)
Definition resolve_config_path (config_path : option string) : M Log Path :=
  config_path <- select_config_path config_path ;;
  let path := parse config_path in
  if negb (is_absolute path)
  then root_dir <- lift _project_root_dir ;; ret (truediv root_dir path)
  else ret path.

(** The body of the [try] statement. *)
Definition load_config_body (config_path : option string) : M Log yaml :=
  path <- resolve_config_path config_path ;;
  found <- path_exists path ;;
  (if negb found
   then log_call ERROR "Configuration file not found:" [("path", FStr (to_str path))] ;;
        raise (FileNotFoundError ("Config file not found: " ++ to_str path))
   else ret tt) ;;
  text <- open_read path ;;
  doc <- lift (safe_load text) ;;
  let config := py_or doc empty_mapping in
  log_call INFO "Configuration loaded successfully"
           [("path", FStr (to_str path)); ("keys", FKeys (top_keys config))] ;;
  ret config.

(** [load_config(config_path)] *)
Definition load_config (config_path : option string) : M Log yaml :=
  try_except
    (load_config_body config_path)
    (fun e =>
       log_call ERROR "Failed to load configuration" [("error", FStr (exn_str e))] ;;
       raise (CustomException "Failed to load configuration file" e)).

End Loader.

End config_loader.

(** ** The logger, [src/logger/custom_logger.py] *)

Module custom_logger.

Local Open Scope py_scope.

(** [datetime.now()], to the second. *)
Record datetime := mkDatetime {
  year : nat; month : nat; day : nat;
  hour : nat; minute : nat; second : nat
}.

Definition digit (n : nat) : ascii := ascii_of_nat (48 + n mod 10).

(** A field padded with zeros to two digits ([%m], [%d], [%H], [%M], [%S]). *)
Definition pad2 (n : nat) : string :=
  String (digit (n / 10)) (String (digit n) EmptyString).

(** The four digits of a year from 1000 to 9999 ([%Y]).  For an earlier
    year the C library decides whether [%Y] is padded, and the properties
    that read the stamp are stated for years from 1000. *)
Definition pad4 (n : nat) : string :=
  String (digit (n / 1000)) (String (digit (n / 100)) (pad2 n)).

(** [now.strftime('%m_%d_%Y_%H_%M_%S')] *)
Definition strftime (now : datetime) : string :=
  pad2 (month now) ++ "_" ++ pad2 (day now) ++ "_" ++ pad4 (year now) ++ "_"
  ++ pad2 (hour now) ++ "_" ++ pad2 (minute now) ++ "_" ++ pad2 (second now).

Inductive Sink :=
| FileSink (baseFilename : string)
| ConsoleSink.

(** A [logging.Handler]: where it writes, its level and its format. *)
Record Handler := mkHandler {
  sink : Sink;
  handler_level : Level;
  formatter : option string
}.

Definition setLevel (h : Handler) (l : Level) : Handler :=
  mkHandler (sink h) l (formatter h).

Definition setFormatter (h : Handler) (fmt : string) : Handler :=
  mkHandler (sink h) (handler_level h) (Some fmt).

Inductive Processor :=
| TimeStamper (fmt : string) (utc : bool) (key : string)
| add_log_level
| EventRenamer (to : string)
| JSONRenderer.

Record StructlogConfig := mkStructlogConfig {
  processors : list Processor;
  cache_logger_on_first_use : bool
}.

(** What a construction can change in the process: the class attribute
    [CustomLogger._configured], the root logger of [logging], the global
    configuration of [structlog], and the log files opened.  The field
    [configure_runs] counts the executions of [_configure]. *)
Record Process := mkProcess {
  _configured : bool;
  root_handlers : list Handler;
  root_level : Level;
  structlog_config : option StructlogConfig;
  opened_files : list string;
  configure_runs : nat
}.

(** A process that has not touched [logging] yet. *)
Definition fresh_process : Process := mkProcess false [] WARNING None [] 0.

(** The attributes [__init__] sets on the instance. *)
Record CustomLogger := mkCustomLogger {
  logs_dir : string;
  log_file_path : string
}.

Section Logger.

(** [__file__] of the logger module and the current directory. *)
Variable logger_file : string.
Variable cwd : string.

(** Outcome of [os.makedirs(path, exist_ok=True)] and of opening a log file
    for appending: [None] when the call succeeds. *)
Variable makedirs_error : string -> option exception.
Variable open_error : string -> option exception.

(** [os.path.abspath(os.path.join(os.path.dirname(__file__), "..", ".."))] *)
Definition root_dir : string :=
  posixpath.abspath cwd (posixpath.join (posixpath.dirname logger_file) [".."; ".."]).

Definition makedirs (path : string) : M Process unit :=
  match makedirs_error path with
  | Some e => raise e
  | None => ret tt
  end.

(** [logging.FileHandler(filename)]: the file is opened at once. *)
Definition FileHandler (filename : string) : M Process Handler :=
  let baseFilename := posixpath.abspath cwd filename in
  match open_error baseFilename with
  | Some e => raise e
  | None =>
      modify (fun p => mkProcess (_configured p) (root_handlers p) (root_level p)
                         (structlog_config p) (opened_files p ++ [baseFilename])%list
                         (configure_runs p)) ;;
      ret (mkHandler (FileSink baseFilename) NOTSET None)
  end.

(** [logging.StreamHandler()] *)
Definition StreamHandler : Handler := mkHandler ConsoleSink NOTSET None.

(** [logging.basicConfig(level=..., format=..., handlers=...)]: does nothing
    when the root logger already has handlers. *)
Definition basicConfig (l : Level) (fmt : string) (handlers : list Handler) : M Process unit :=
  modify (fun p =>
    match root_handlers p with
    | [] =>
        let installed :=
          map (fun h => match formatter h with
                        | None => setFormatter h fmt
                        | Some _ => h
                        end) handlers in
        mkProcess (_configured p) installed l (structlog_config p)
                  (opened_files p) (configure_runs p)
    | _ :: _ => p
    end).

(** [structlog.configure(...)] *)
Definition structlog_configure (c : StructlogConfig) : M Process unit :=
  modify (fun p => mkProcess (_configured p) (root_handlers p) (root_level p) (Some c)
                     (opened_files p) (configure_runs p)).

Definition pipeline : StructlogConfig :=
  mkStructlogConfig
    [TimeStamper "iso" true "timestamp"; add_log_level; EventRenamer "event"; JSONRenderer]
    true.

(** [self._configure()] *)
Definition _configure (self : CustomLogger) : M Process unit :=
  modify (fun p => mkProcess (_configured p) (root_handlers p) (root_level p)
                     (structlog_config p) (opened_files p) (S (configure_runs p))) ;;
  file_handler <- FileHandler (log_file_path self) ;;
  let file_handler := setLevel file_handler INFO in
  let file_handler := setFormatter file_handler "%(message)s" in
  let console_handler := StreamHandler in
  let console_handler := setLevel console_handler INFO in
  let console_handler := setFormatter console_handler "%(message)s" in
  basicConfig INFO "%(message)s" [file_handler; console_handler] ;;
  structlog_configure pipeline.

(** [CustomLogger(log_dir)], constructed at time [now]. *)
Definition __init__ (log_dir : string) (now : datetime) : M Process CustomLogger :=
  let logs_dir := posixpath.join root_dir [log_dir] in
  makedirs logs_dir ;;
  let log_file_name := "log_" ++ strftime now ++ ".log" in
  let log_file_path := posixpath.join logs_dir [log_file_name] in
  let self := mkCustomLogger logs_dir log_file_path in
  configured <- gets _configured ;;
  (if negb configured
   then _configure self ;;
        modify (fun p => mkProcess true (root_handlers p) (root_level p)
                           (structlog_config p) (opened_files p) (configure_runs p))
   else ret tt) ;;
  ret self.

(** Constructions made one after the other in one process. *)
Fixpoint construct_all (inputs : list (string * datetime)) : M Process (list CustomLogger) :=
  match inputs with
  | [] => ret []
  | (log_dir, now) :: rest =>
      self <- __init__ log_dir now ;;
      others <- construct_all rest ;;
      ret (self :: others)
  end.

(** The directory and the path a construction computes for its log file. *)
Definition computed_dir (input : string * datetime) : string :=
  posixpath.join root_dir [fst input].

Definition computed_path (input : string * datetime) : string :=
  posixpath.join (computed_dir input) ["log_" ++ strftime (snd input) ++ ".log"].

(** The two handlers [_configure] builds for a log file. *)
Definition installed_handlers (filename : string) : list Handler :=
  [mkHandler (FileSink (posixpath.abspath cwd filename)) INFO (Some "%(message)s");
   mkHandler ConsoleSink INFO (Some "%(message)s")].

End Logger.

End custom_logger.

(** ** Vocabulary of the statements *)

Module Events.

Import pathlib.

(** The call of line 50, [log.error("Configuration file not found:", path=...)]. *)
Definition not_found (path : Path) : LogEvent :=
  mkLogEvent ERROR "Configuration file not found:" [("path", FStr (to_str path))].

(** The call of line 59, [log.info("Configuration loaded successfully", ...)]. *)
Definition loaded (path : Path) (config : yaml) : LogEvent :=
  mkLogEvent INFO "Configuration loaded successfully"
             [("path", FStr (to_str path)); ("keys", FKeys (top_keys config))].

(** The call of line 64, [log.error("Failed to load configuration", error=str(e))]. *)
Definition failed (e : exception) : LogEvent :=
  mkLogEvent ERROR "Failed to load configuration" [("error", FStr (exn_str e))].

(** The exception of line 65. *)
Definition wrapped (e : exception) : exception :=
  CustomException "Failed to load configuration file" e.

(** The exception of line 51. *)
Definition missing (path : Path) : exception :=
  FileNotFoundError ("Config file not found: " ++ to_str path).

(** [<project_root>/config/configuration.yaml] *)
Definition default_path (root_dir : Path) : Path :=
  truediv_str (truediv_str root_dir "config") "configuration.yaml".

(** A path taken as it is when absolute, and below [root_dir] otherwise. *)
Definition rebased (root_dir path : Path) : Path :=
  if is_absolute path then path else truediv root_dir path.

(** Lines 44 to 46 for a selected string [s]: the path, or the error of
    [_project_root_dir] when the root is needed and cannot be computed. *)
Definition located (w : World) (s : string) (log : Log) : (exception + Path) * Log :=
  if is_absolute (parse s) then (inr (parse s), log)
  else match config_loader._project_root_dir w with
       | inr r => (inr (truediv r (parse s)), log)
       | inl e => (inl e, log)
       end.

(** The resolved path of a call when nothing exists there. *)
Definition missing_file (w : World) (config_path : option string) (log : Log) : option Path :=
  match config_loader.resolve_config_path w config_path log with
  | (inr path, _) =>
      match fs w (to_str path) with
      | NoEntry => Some path
      | _ => None
      end
  | (inl _, _) => None
  end.

(** The exception [open] raises on a directory. *)
Definition is_a_directory (path : Path) : exception :=
  IsADirectoryError ("[Errno 21] Is a directory: '" ++ to_str path ++ "'").

(** Number of calls in a log that carry a given event text at error level. *)
Definition count_event (text : string) (log : Log) : nat :=
  List.length (filter (fun ev => is_error ev && (event ev =? text)) log).

(** The world seen from another current directory. *)
Definition with_cwd (w : World) (dir : string) : World :=
  mkWorld (environ w) dir (config_loader_file w) (fs w).

(** The world with another process environment. *)
Definition with_environ (w : World) (env : string -> option string) : World :=
  mkWorld env (cwd w) (config_loader_file w) (fs w).

End Events.

(** ** A concrete installation *)

Module Scenario.

Definition repo : string := "/Users/username/Documents/automated-research-report-generation".

Definition loader_file : string := repo ++ "/src/utlis/config_loader.py".

Definition logger_file : string := repo ++ "/src/logger/custom_logger.py".

Definition unset : string -> option string := fun _ => None.

(** An environment in which only [CONFIG_PATH] is set. *)
Definition config_path_set (value : string) : string -> option string :=
  fun name => if name =? "CONFIG_PATH" then Some value else None.

(** A file system given by the entries it has. *)
Fixpoint files (entries : list (string * Node)) (path : string) : Node :=
  match entries with
  | [] => NoEntry
  | (p, n) :: rest => if p =? path then n else files rest path
  end.

(** A loader that knows a handful of documents and rejects any other text. *)
Definition documents (text : string) : exception + yaml :=
  if text =? "" then inr YNull
  else if text =? "false" then inr (YBool false)
  else if text =? "0" then inr (YInt 0)
  else if text =? "- 1" then inr (YSeq [YInt 1])
  else if text =? "a: 1" then inr (YMap [(YStr "a", YInt 1)])
  else inl (YAMLError "could not parse the document").

Definition disk : string -> Node :=
  files [ (repo ++ "/src/config/configuration.yaml", RegularFile (inr "a: 1"));
          (repo ++ "/src/config/empty.yaml", RegularFile (inr ""));
          (repo ++ "/src/config/false.yaml", RegularFile (inr "false"));
          (repo ++ "/src/config/list.yaml", RegularFile (inr "- 1"));
          (repo ++ "/src/config/broken.yaml", RegularFile (inr "a: [1"));
          (repo ++ "/src/config", Directory);
          ("/etc/app.yaml", RegularFile (inr "a: 1"));
          ("/etc/secret.yaml", RegularFile (inl (PermissionError "[Errno 13] Permission denied: '/etc/secret.yaml'"))) ].

Definition world (env : string -> option string) : World :=
  mkWorld env "/tmp" loader_file disk.

Definition always_succeeds : string -> option exception := fun _ => None.

Definition morning : custom_logger.datetime := custom_logger.mkDatetime 2026 11 4 7 5 9.

Definition noon : custom_logger.datetime := custom_logger.mkDatetime 2026 11 4 12 0 0.

Definition src_dir : pathlib.Path :=
  pathlib.mkPath "/" ["Users"; "username"; "Documents"; "automated-research-report-generation"; "src"].

End Scenario.

(** ** The rest of the two modules *)

Module logger_api.

Import custom_logger.

(** A [structlog] logger as its user sees it: the name it is bound to. *)
Record BoundLogger := mkBoundLogger { logger_name : string }.

(** [self.get_logger(name)] *)
Definition get_logger (self : CustomLogger) (name : string) : BoundLogger :=
  mkBoundLogger (posixpath.basename name).

(** The values of [datetime.now()] with a year of four digits, 1000 to
    9999, and every other field within its calendar range: for these the
    stamp is the same on every platform. *)
Definition in_range (now : datetime) : bool :=
  Nat.leb 1000 (year now) && Nat.leb (year now) (9 * 1111) &&
  Nat.leb 1 (month now) && Nat.leb (month now) 12 &&
  Nat.leb 1 (day now) && Nat.leb (day now) 31 &&
  Nat.leb (hour now) 23 && Nat.leb (minute now) 59 && Nat.leb (second now) 59.

(** Line 8 of the loader module, executed when the module is imported at
    time [now]: [log = CustomLogger().get_logger(__file__)]. *)
Definition loader_module_log
  (logger_file loader_file cwd : string)
  (makedirs_error open_error : string -> option exception)
  (now : datetime) : M Process BoundLogger :=
  bind (__init__ logger_file cwd makedirs_error open_error "logs" now)
       (fun self => ret (get_logger self loader_file)).

End logger_api.

Module loader_script.



Section Script.

Variable safe_load : string -> exception + yaml.

(** [json.dumps(config, indent=2)]: the text, or the message of the
    exception it raises. *)
Variable json_dumps : yaml -> string + string.

(** [str(e)] for a [CustomException]; the class is not among the sources. *)
Variable CustomException_str : exception -> string.

Variable w : World.


End Script.

End loader_script.

(** ** The layout of the repository, wherever it is checked out *)

Module Layout.

(** A directory or file name: not empty and without a slash. *)
Definition name_part (x : string) : bool :=
  negb (pystr.contains_sep x) && pystr.nonempty x.

(** A name other than ["."] and [".."]. *)
Definition ordinary (x : string) : bool :=
  name_part x && negb (x =? ".") && negb (x =? "..").

(** The text of the absolute path with the given components. *)
Definition absolute (parts : list string) : string := "/" ++ pystr.join parts.

(** [__file__] of the two modules in a checkout at [/<repo>]. *)
Definition loader_file_in (repo : list string) : string :=
  absolute (repo ++ ["src"; "utlis"; "config_loader.py"]).

Definition logger_file_in (repo : list string) : string :=
  absolute (repo ++ ["src"; "logger"; "custom_logger.py"]).

End Layout.

(** * Properties *)

(** ** The library functions on sample inputs *)

Example split_ex : pystr.split "/a//b/" = [""; "a"; ""; "b"; ""].
Proof. reflexivity. Qed.

Example dirname_ex : posixpath.dirname "/repo/src/logger/custom_logger.py" = "/repo/src/logger".
Proof. reflexivity. Qed.

Example normpath_ex : posixpath.normpath "/repo/src/logger/../.." = "/repo".
Proof. reflexivity. Qed.

Example normpath_ex2 : posixpath.normpath "//a/./b/../../../c" = "//c".
Proof. reflexivity. Qed.

Example normpath_ex3 : posixpath.normpath "a/../../b" = "../b".
Proof. reflexivity. Qed.

Example realpath_ex : posixpath.realpath "/tmp" "//a/./b/../c//d.py" = "/a/c/d.py".
Proof. reflexivity. Qed.

Example realpath_ex2 : posixpath.realpath "/srv/app" "../x/../../lib/m.py" = "/lib/m.py".
Proof. reflexivity. Qed.

Example parse_ex : pathlib.to_str (pathlib.parse "///a//b/./c/") = "/a/b/c".
Proof. reflexivity. Qed.

Example strftime_ex :
  custom_logger.strftime (custom_logger.mkDatetime 2026 11 4 7 5 9) = "11_04_2026_07_05_09".
Proof. reflexivity. Qed.

(** ** Splitting and joining on the separator *)

Module pystr_facts.

Import pystr.

Lemma split_sep_free (s : string) :
  contains_sep s = false -> split s = [s].
Proof.
  induction s as [|c s IH]; simpl; [reflexivity|].
  destruct (is_sep c); simpl; [discriminate|].
  intros H. rewrite (IH H). reflexivity.
Qed.

Lemma split_items_sep_free (s x : string) :
  In x (split s) -> contains_sep x = false.
Proof.
  revert x. induction s as [|c s IH]; simpl; intros x Hx.
  - destruct Hx as [<-|[]]. reflexivity.
  - destruct (is_sep c) eqn:Hc.
    + destruct Hx as [<-|Hx]; [reflexivity|now apply IH].
    + destruct (split s) as [|h t] eqn:Hs.
      * destruct Hx as [<-|[]]. simpl. now rewrite Hc.
      * destruct Hx as [<-|Hx].
        -- simpl. rewrite Hc. apply IH. now left.
        -- apply IH. now right.
Qed.

Lemma split_app_sep (a b : string) :
  contains_sep a = false -> split (a ++ String sep b) = a :: split b.
Proof.
  induction a as [|c a IH]; simpl; intros H.
  - reflexivity.
  - destruct (is_sep c); simpl in *; [discriminate|].
    rewrite (IH H). reflexivity.
Qed.

Lemma split_join (l : list string) :
  l <> [] -> Forall (fun x => contains_sep x = false) l -> split (join l) = l.
Proof.
  induction l as [|x l IH]; [congruence|].
  intros _ Hall. inversion Hall as [|? ? Hx Hl]; subst.
  destruct l as [|y l].
  - simpl. now apply split_sep_free.
  - change (join (x :: y :: l)) with (x ++ String sep (join (y :: l))).
    rewrite split_app_sep by assumption.
    rewrite IH; [reflexivity|discriminate|assumption].
Qed.

Lemma startswith_sep_app (a b : string) :
  nonempty a = true -> startswith_sep (a ++ b) = startswith_sep a.
Proof. destruct a; simpl; [discriminate|reflexivity]. Qed.

Lemma sep_free_not_startswith (a : string) :
  contains_sep a = false -> startswith_sep a = false.
Proof. destruct a as [|c a]; simpl; [reflexivity|]. now destruct (is_sep c). Qed.

End pystr_facts.

(** ** Paths *)

Module pathlib_facts.

Import pystr pystr_facts pathlib.

Lemma splitroot_root (s : string) :
  let r := fst (splitroot s) in r = "" \/ r = "/" \/ r = "//".
Proof.
  destruct s as [|c1 [|c2 [|c3 s]]]; simpl;
    repeat match goal with |- context [is_sep ?c] => destruct (is_sep c) end;
    simpl; auto.
Qed.

Lemma splitroot_absolute (s : string) :
  startswith_sep s = true -> nonempty (fst (splitroot s)) = true.
Proof.
  destruct s as [|c1 [|c2 [|c3 s]]]; simpl; try discriminate;
    intros ->; simpl; try reflexivity;
    repeat match goal with |- context [is_sep ?c] => destruct (is_sep c) end;
    reflexivity.
Qed.

Lemma parse_well_formed (s : string) : well_formed (parse s) = true.
Proof.
  unfold well_formed, parse.
  pose proof (splitroot_root s) as Hr.
  destruct (splitroot s) as [r rel]; simpl in *.
  apply andb_true_intro; split.
  - destruct Hr as [->|[->| ->]]; reflexivity.
  - apply forallb_forall. intros x Hx.
    apply filter_In in Hx. destruct Hx as [Hin Hkeep].
    unfold plain_part. rewrite (split_items_sep_free _ _ Hin), Hkeep. reflexivity.
Qed.

Lemma parse_absolute (s : string) :
  startswith_sep s = true -> is_absolute (parse s) = true.
Proof.
  intros H. apply splitroot_absolute in H.
  unfold is_absolute, parse. destruct (splitroot s); assumption.
Qed.

Lemma plain_part_sep_free (x : string) : plain_part x = true -> contains_sep x = false.
Proof.
  unfold plain_part. intros H. apply andb_prop in H. destruct H as [H _].
  now destruct (contains_sep x).
Qed.

Lemma plain_part_keep (x : string) : plain_part x = true -> keep_part x = true.
Proof. unfold plain_part. intros H. apply andb_prop in H. tauto. Qed.

Lemma filter_keep_plain (l : list string) :
  forallb plain_part l = true -> filter keep_part l = l.
Proof.
  induction l as [|x l IH]; simpl; [reflexivity|].
  intros H. apply andb_prop in H. destruct H as [Hx Hl].
  rewrite (plain_part_keep _ Hx), (IH Hl). reflexivity.
Qed.

(** The components come back when their joined text is split again. *)
Lemma parts_of_join (l : list string) :
  forallb plain_part l = true -> filter keep_part (split (join l)) = l.
Proof.
  intros H. destruct l as [|x l]; [reflexivity|].
  rewrite split_join.
  - now apply filter_keep_plain.
  - discriminate.
  - apply Forall_forall. intros y Hy. apply plain_part_sep_free.
    rewrite forallb_forall in H. now apply H.
Qed.

Lemma join_starts_plain (l : list string) :
  forallb plain_part l = true -> startswith_sep (join l) = false.
Proof.
  destruct l as [|x l]; [reflexivity|]. simpl forallb.
  intros H. apply andb_prop in H. destruct H as [Hx _].
  pose proof (plain_part_sep_free _ Hx) as Hfree.
  apply plain_part_keep in Hx. unfold keep_part in Hx. apply andb_prop in Hx.
  destruct Hx as [Hne _].
  destruct l as [|y l].
  - simpl. now apply sep_free_not_startswith.
  - change (join (x :: y :: l)) with (x ++ String sep (join (y :: l))).
    rewrite startswith_sep_app by assumption. now apply sep_free_not_startswith.
Qed.

(** [Path(str(p)) == p] *)
Lemma parse_to_str (p : Path) : well_formed p = true -> parse (to_str p) = p.
Proof.
  destruct p as [r tl]. unfold well_formed; simpl.
  intros H. apply andb_prop in H. destruct H as [Hr Htl].
  pose proof (join_starts_plain _ Htl) as Hstart.
  pose proof (parts_of_join _ Htl) as Hparts.
  unfold to_str, parse; simpl.
  destruct (String.eqb_spec r "") as [->|Hr0]; simpl.
  - destruct tl as [|x tl]; [reflexivity|].
    remember (join (x :: tl)) as j eqn:Hj.
    destruct j as [|c j]; simpl in *.
    + now rewrite Hparts.
    + rewrite Hstart. simpl. now rewrite Hparts.
  - destruct (String.eqb_spec r "/") as [->|Hr1]; simpl in *.
    + destruct (join tl) as [|c j] eqn:Hj; simpl in *.
      * now rewrite <- Hparts.
      * rewrite Hstart. simpl. now rewrite Hparts.
    + destruct (String.eqb_spec r "//") as [->|Hr2]; simpl in *; [|discriminate].
      destruct (join tl) as [|c j] eqn:Hj; simpl in *.
      * now rewrite <- Hparts.
      * rewrite Hstart. simpl. now rewrite Hparts.
Qed.

Lemma truediv_well_formed (p q : Path) :
  well_formed p = true -> well_formed q = true -> well_formed (truediv p q) = true.
Proof.
  unfold truediv. destruct (is_absolute q); [auto|].
  unfold well_formed; simpl. intros Hp Hq.
  apply andb_prop in Hp. destruct Hp as [Hr Hp].
  apply andb_prop in Hq. destruct Hq as [_ Hq].
  rewrite Hr, forallb_app, Hp, Hq. reflexivity.
Qed.

Lemma truediv_absolute (p q : Path) :
  is_absolute p = true -> is_absolute (truediv p q) = true.
Proof.
  unfold truediv. destruct (is_absolute q) eqn:Hq; [now rewrite Hq|]. auto.
Qed.

End pathlib_facts.

(** ** Absolute paths stay absolute *)

Module posixpath_facts.

Import pystr pystr_facts posixpath.

Lemma rstrip_empty (s : string) : rstrip s = "" -> all_sep s = true.
Proof.
  induction s as [|c s IH]; simpl; [reflexivity|].
  destruct (rstrip s) as [|c' r].
  - destruct (is_sep c); [intros _; now apply IH|discriminate].
  - discriminate.
Qed.

Lemma rstrip_absolute (s : string) :
  startswith_sep s = true -> all_sep s = false -> startswith_sep (rstrip s) = true.
Proof.
  destruct s as [|c s]; simpl; [discriminate|].
  intros Hc Hall. rewrite Hc in *. simpl in Hall.
  destruct (rstrip s) as [|c' r] eqn:Hr.
  - apply rstrip_empty in Hr. congruence.
  - simpl. exact Hc.
Qed.

Lemma upto_last_sep_absolute (p : string) :
  startswith_sep p = true -> startswith_sep (upto_last_sep p) = true.
Proof.
  destruct p as [|c p]; simpl; [discriminate|].
  intros Hc. rewrite Hc. simpl. exact Hc.
Qed.

Lemma dirname_absolute (p : string) :
  startswith_sep p = true -> startswith_sep (dirname p) = true.
Proof.
  intros H. apply upto_last_sep_absolute in H. unfold dirname.
  destruct (nonempty (upto_last_sep p) && negb (all_sep (upto_last_sep p))) eqn:Hc;
    [|exact H].
  apply andb_prop in Hc. destruct Hc as [_ Hall].
  apply rstrip_absolute; [exact H|]. now destruct (all_sep (upto_last_sep p)).
Qed.

Lemma join2_absolute (path b : string) :
  startswith_sep path = true -> startswith_sep b = false ->
  startswith_sep (join2 path b) = true.
Proof.
  intros Hp Hb. unfold join2. rewrite Hb.
  destruct path as [|c path]; [discriminate|].
  destruct (negb (nonempty (String c path)) || endswith_sep (String c path)); exact Hp.
Qed.

Lemma joinrealpath_step_absolute (path name : string) :
  startswith_sep path = true -> contains_sep name = false ->
  startswith_sep (joinrealpath_step path name) = true.
Proof.
  intros Hp Hn. unfold joinrealpath_step.
  destruct ((name =? "") || (name =? ".")); [exact Hp|].
  destruct (name =? "..").
  - destruct path as [|c path]; [discriminate|]. cbn [nonempty].
    destruct (basename (String c path) =? "..").
    + unfold join. cbn [fold_left].
      repeat apply join2_absolute; auto using dirname_absolute.
    + now apply dirname_absolute.
  - apply join2_absolute; [exact Hp|]. now apply sep_free_not_startswith.
Qed.

Lemma joinrealpath_fold_absolute (names : list string) (path : string) :
  Forall (fun x => contains_sep x = false) names ->
  startswith_sep path = true ->
  startswith_sep (fold_left joinrealpath_step names path) = true.
Proof.
  revert path. induction names as [|name names IH]; intros path Hall Hp; [exact Hp|].
  inversion Hall; subst. simpl. apply IH; [assumption|].
  now apply joinrealpath_step_absolute.
Qed.

Lemma joinrealpath_absolute (filename : string) :
  startswith_sep filename = true -> startswith_sep (joinrealpath filename) = true.
Proof.
  destruct filename as [|c rest]; simpl; [discriminate|].
  intros ->. apply joinrealpath_fold_absolute; [|reflexivity].
  apply Forall_forall. intros x. apply split_items_sep_free.
Qed.

End posixpath_facts.

(** ** The path the loader resolves *)

Module resolve_facts.

Import pystr pystr_facts pathlib pathlib_facts config_loader Events.

Ltac run := unfold bind, ret, lift, raise, try_except, log_call, modify, gets.

Lemma initial_slashes_absolute (s : string) :
  startswith_sep s = true ->
  posixpath.initial_slashes s = 1 \/ posixpath.initial_slashes s = 2.
Proof.
  destruct s as [|c1 [|c2 [|c3 s]]]; simpl; try discriminate; intros ->;
    repeat match goal with |- context [is_sep ?c] => destruct (is_sep c) end;
    simpl; auto.
Qed.

Lemma normpath_absolute (s : string) :
  startswith_sep s = true -> startswith_sep (posixpath.normpath s) = true.
Proof.
  intros H. unfold posixpath.normpath.
  destruct s as [|c s]; [discriminate|]. cbn [nonempty negb].
  destruct (initial_slashes_absolute _ H) as [-> | ->]; reflexivity.
Qed.

Lemma to_str_absolute (p : Path) :
  well_formed p = true -> is_absolute p = true -> startswith_sep (to_str p) = true.
Proof.
  destruct p as [r tl]. unfold well_formed, is_absolute, to_str; simpl.
  intros Hwf Habs. rewrite Habs. apply andb_prop in Hwf. destruct Hwf as [Hr _].
  destruct (String.eqb_spec r "") as [->|_]; [discriminate|].
  destruct (String.eqb_spec r "/") as [->|_]; [reflexivity|].
  destruct (String.eqb_spec r "//") as [->|_]; [reflexivity|discriminate].
Qed.

Section Resolve.

Variable w : World.

(** An absolute [__file__] is resolved without a look at the current
    directory. *)
Lemma resolve_absolute_file :
  posixpath.isabs (config_loader_file w) = true ->
  resolve w (parse (config_loader_file w)) =
  parse (posixpath.normpath
           (posixpath.joinrealpath (to_str (parse (config_loader_file w))))).
Proof.
  intros H. unfold resolve, posixpath.realpath, posixpath.abspath.
  unfold posixpath.isabs in *.
  rewrite (posixpath_facts.joinrealpath_absolute _
             (to_str_absolute _ (parse_well_formed _) (parse_absolute _ H))).
  reflexivity.
Qed.

Lemma parents_well_formed (p r : Path) (idx : nat) :
  well_formed p = true -> parents p idx = inr r -> well_formed r = true.
Proof.
  unfold parents. destruct (Nat.leb _ _); [discriminate|].
  intros Hwf [= <-]. unfold well_formed in *; simpl.
  apply andb_prop in Hwf. destruct Hwf as [Hr Htl]. rewrite Hr. simpl.
  apply forallb_forall. intros x Hx. rewrite forallb_forall in Htl.
  apply Htl. rewrite <- (firstn_skipn (List.length (tail p) - idx - 1) (tail p)).
  apply in_or_app. now left.
Qed.

Lemma parents_root (p r : Path) (idx : nat) :
  parents p idx = inr r -> root r = root p.
Proof.
  unfold parents. destruct (Nat.leb _ _); [discriminate|]. now intros [= <-].
Qed.

Lemma project_root_well_formed (r : Path) :
  _project_root_dir w = inr r -> well_formed r = true.
Proof.
  unfold _project_root_dir. apply parents_well_formed.
  unfold resolve. apply parse_well_formed.
Qed.

Lemma project_root_absolute (r : Path) :
  posixpath.isabs (config_loader_file w) = true ->
  _project_root_dir w = inr r -> is_absolute r = true.
Proof.
  intros Habs Hr. unfold _project_root_dir in Hr.
  apply parents_root in Hr. unfold is_absolute. rewrite Hr.
  rewrite (resolve_absolute_file Habs).
  apply parse_absolute, normpath_absolute, posixpath_facts.joinrealpath_absolute,
    to_str_absolute.
  - apply parse_well_formed.
  - now apply parse_absolute.
Qed.

(** The default location survives the detour through [str] of line 42 and
    [Path] of line 44. *)
Lemma default_path_round_trip (r : Path) :
  well_formed r = true -> parse (to_str (default_path r)) = default_path r.
Proof.
  intros Hr. apply parse_to_str. unfold default_path, truediv_str.
  repeat apply truediv_well_formed; auto using parse_well_formed.
Qed.

Lemma default_path_absolute (r : Path) :
  is_absolute r = true -> is_absolute (default_path r) = true.
Proof.
  intros Hr. unfold default_path, truediv_str. now repeat apply truediv_absolute.
Qed.

Lemma resolve_explicit (p : string) (log : Log) :
  resolve_config_path w (Some p) log = located w p log.
Proof.
  unfold resolve_config_path, select_config_path, located. run.
  destruct (is_absolute (parse p)); simpl; [reflexivity|].
  destruct (_project_root_dir w); reflexivity.
Qed.

Lemma resolve_env (e : string) (log : Log) :
  getenv w "CONFIG_PATH" = Some e -> nonempty e = true ->
  resolve_config_path w None log = located w e log.
Proof.
  intros He Hne. unfold resolve_config_path, select_config_path, located. run.
  rewrite He, Hne.
  destruct (is_absolute (parse e)); simpl; [reflexivity|].
  destruct (_project_root_dir w); reflexivity.
Qed.

Lemma resolve_default (r : Path) (log : Log) :
  getenv w "CONFIG_PATH" = None \/ getenv w "CONFIG_PATH" = Some "" ->
  _project_root_dir w = inr r -> is_absolute r = true ->
  resolve_config_path w None log = (inr (default_path r), log).
Proof.
  intros He Hr Habs.
  pose proof (default_path_round_trip r (project_root_well_formed _ Hr)) as Hrt.
  pose proof (default_path_absolute r Habs) as Hda.
  unfold default_path in *.
  unfold resolve_config_path, select_config_path. run.
  destruct He as [-> | ->]; cbn [nonempty]; rewrite Hr, Hrt, Hda; reflexivity.
Qed.

Lemma resolve_default_fails (e : exception) (log : Log) :
  getenv w "CONFIG_PATH" = None \/ getenv w "CONFIG_PATH" = Some "" ->
  _project_root_dir w = inl e ->
  resolve_config_path w None log = (inl e, log).
Proof.
  intros He Hr. unfold resolve_config_path, select_config_path. run.
  destruct He as [-> | ->]; cbn [nonempty]; rewrite Hr; reflexivity.
Qed.

(** Resolving the path logs nothing. *)
Lemma resolve_keeps_log (config_path : option string) (log : Log) :
  snd (resolve_config_path w config_path log) = log.
Proof.
  unfold resolve_config_path, select_config_path. run.
  destruct config_path as [p|].
  - destruct (is_absolute (parse p)); simpl; [reflexivity|].
    destruct (_project_root_dir w); reflexivity.
  - destruct (getenv w "CONFIG_PATH") as [e|].
    + destruct (nonempty e).
      * destruct (is_absolute (parse e)); simpl; [reflexivity|].
        destruct (_project_root_dir w); reflexivity.
      * destruct (_project_root_dir w) as [x|r]; [reflexivity|].
        match goal with |- context [is_absolute ?q] => destruct (is_absolute q) end;
          reflexivity.
    + destruct (_project_root_dir w) as [x|r]; [reflexivity|].
      match goal with |- context [is_absolute ?q] => destruct (is_absolute q) end;
        reflexivity.
Qed.

End Resolve.

End resolve_facts.

(** ** What a call of [load_config] does, case by case *)

Module load_facts.

Import pathlib config_loader Events resolve_facts.

Section Load.

Variable safe_load : string -> exception + yaml.
Variable w : World.
Variable config_path : option string.
Variable log : Log.

Ltac start :=
  unfold load_config, load_config_body, path_exists, open_read; run.

Lemma load_unresolved (e : exception) :
  resolve_config_path w config_path log = (inl e, log) ->
  load_config safe_load w config_path log = (inl (wrapped e), (log ++ [failed e])%list).
Proof. intros H. start. rewrite H. reflexivity. Qed.

Section Resolved.

Variable path : Path.
Hypothesis Hpath : resolve_config_path w config_path log = (inr path, log).

Lemma load_missing :
  fs w (to_str path) = NoEntry ->
  load_config safe_load w config_path log =
  (inl (wrapped (missing path)), (log ++ [not_found path; failed (missing path)])%list).
Proof.
  intros H. start. rewrite Hpath, H. cbn. rewrite <- app_assoc. reflexivity.
Qed.

Lemma load_inaccessible (e : exception) :
  fs w (to_str path) = Inaccessible e ->
  load_config safe_load w config_path log = (inl (wrapped e), (log ++ [failed e])%list).
Proof. intros H. start. rewrite Hpath, H. reflexivity. Qed.

Lemma load_directory :
  fs w (to_str path) = Directory ->
  load_config safe_load w config_path log =
  (inl (wrapped (is_a_directory path)), (log ++ [failed (is_a_directory path)])%list).
Proof. intros H. start. rewrite Hpath, H. reflexivity. Qed.

Lemma load_unreadable (e : exception) :
  fs w (to_str path) = RegularFile (inl e) ->
  load_config safe_load w config_path log = (inl (wrapped e), (log ++ [failed e])%list).
Proof. intros H. start. rewrite Hpath, H. reflexivity. Qed.

Lemma load_malformed (text : string) (e : exception) :
  fs w (to_str path) = RegularFile (inr text) -> safe_load text = inl e ->
  load_config safe_load w config_path log = (inl (wrapped e), (log ++ [failed e])%list).
Proof. intros H Hdoc. start. rewrite Hpath, H. cbn. rewrite Hdoc. reflexivity. Qed.

Lemma load_parsed (text : string) (doc : yaml) :
  fs w (to_str path) = RegularFile (inr text) -> safe_load text = inr doc ->
  load_config safe_load w config_path log =
  (inr (py_or doc empty_mapping),
   (log ++ [loaded path (py_or doc empty_mapping)])%list).
Proof. intros H Hdoc. start. rewrite Hpath, H. cbn. rewrite Hdoc. reflexivity. Qed.

End Resolved.

(** The result of resolving, with the log known to be untouched. *)
Lemma resolve_cases :
  (exists e, resolve_config_path w config_path log = (inl e, log)) \/
  (exists path, resolve_config_path w config_path log = (inr path, log)).
Proof.
  pose proof (resolve_keeps_log w config_path log) as Hlog.
  destruct (resolve_config_path w config_path log) as [[e|path] log1];
    simpl in Hlog; subst log1; eauto.
Qed.

(** The wrapper changes neither the fact nor the cause of a failure. *)
Lemma load_config_wraps_body :
  match load_config_body safe_load w config_path log with
  | (inr config, log1) => load_config safe_load w config_path log = (inr config, log1)
  | (inl e, log1) =>
      load_config safe_load w config_path log = (inl (wrapped e), (log1 ++ [failed e])%list)
  end.
Proof.
  unfold load_config. run.
  destruct (load_config_body safe_load w config_path log) as [[e|config] log1];
    reflexivity.
Qed.

(** Every failing call: the cause, and the calls it adds to the log. *)
Lemma load_failure_cases (e : exception) (log' : Log) :
  load_config safe_load w config_path log = (inl e, log') ->
  exists cause,
    e = wrapped cause /\
    fst (load_config_body safe_load w config_path log) = inl cause /\
    match missing_file w config_path log with
    | Some path => cause = missing path /\
                   log' = (log ++ [not_found path; failed cause])%list
    | None => log' = (log ++ [failed cause])%list
    end.
Proof.
  intros H. pose proof load_config_wraps_body as Hw.
  unfold missing_file.
  destruct resolve_cases as [[x Hr]|[path Hr]]; rewrite Hr.
  - rewrite (load_unresolved _ Hr) in H. injection H as <- <-.
    exists x. repeat split.
    unfold load_config_body. run. now rewrite Hr.
  - destruct (fs w (to_str path)) as [|x| |[x|text]] eqn:Hfs.
    + rewrite (load_missing _ Hr Hfs) in H. injection H as <- <-.
      exists (missing path). repeat split.
      unfold load_config_body, path_exists. run. rewrite Hr, Hfs. reflexivity.
    + rewrite (load_inaccessible _ Hr _ Hfs) in H. injection H as <- <-.
      exists x. repeat split.
      unfold load_config_body, path_exists. run. rewrite Hr, Hfs. reflexivity.
    + rewrite (load_directory _ Hr Hfs) in H. injection H as <- <-.
      exists (is_a_directory path). repeat split.
      unfold load_config_body, path_exists, open_read. run. rewrite Hr, Hfs. reflexivity.
    + rewrite (load_unreadable _ Hr _ Hfs) in H. injection H as <- <-.
      exists x. repeat split.
      unfold load_config_body, path_exists, open_read. run. rewrite Hr, Hfs. reflexivity.
    + destruct (safe_load text) as [x|doc] eqn:Hdoc.
      * rewrite (load_malformed _ Hr _ _ Hfs Hdoc) in H. injection H as <- <-.
        exists x. repeat split.
        unfold load_config_body, path_exists, open_read. run.
        rewrite Hr, Hfs. cbn. rewrite Hdoc. reflexivity.
      * rewrite (load_parsed _ Hr _ _ Hfs Hdoc) in H. discriminate.
Qed.

(** Every successful call: the file it read and the document in it. *)
Lemma load_success_cases (config : yaml) (log' : Log) :
  load_config safe_load w config_path log = (inr config, log') ->
  exists path text doc,
    resolve_config_path w config_path log = (inr path, log) /\
    fs w (to_str path) = RegularFile (inr text) /\
    safe_load text = inr doc /\
    config = py_or doc empty_mapping /\
    log' = (log ++ [loaded path config])%list.
Proof.
  intros H.
  destruct resolve_cases as [[x Hr]|[path Hr]].
  - rewrite (load_unresolved _ Hr) in H. discriminate.
  - destruct (fs w (to_str path)) as [|x| |[x|text]] eqn:Hfs.
    + rewrite (load_missing _ Hr Hfs) in H. discriminate.
    + rewrite (load_inaccessible _ Hr _ Hfs) in H. discriminate.
    + rewrite (load_directory _ Hr Hfs) in H. discriminate.
    + rewrite (load_unreadable _ Hr _ Hfs) in H. discriminate.
    + destruct (safe_load text) as [x|doc] eqn:Hdoc.
      * rewrite (load_malformed _ Hr _ _ Hfs Hdoc) in H. discriminate.
      * rewrite (load_parsed _ Hr _ _ Hfs Hdoc) in H. injection H as <- <-.
        exists path, text, doc. auto.
Qed.

End Load.

End load_facts.

(** ** The configuration loader: resolution of the path *)

Import pathlib config_loader Events.

Lemma located_with_root (w : World) (r : Path) (s : string) (log : Log) :
  _project_root_dir w = inr r ->
  located w s log = (inr (rebased r (parse s)), log).
Proof.
  intros Hr. unfold located, rebased. rewrite Hr.
  destruct (is_absolute (parse s)); reflexivity.
Qed.

Lemma project_root_ignores_cwd (w : World) (dir : string) :
  posixpath.isabs (config_loader_file w) = true ->
  _project_root_dir (with_cwd w dir) = _project_root_dir w.
Proof.
  intros Habs. unfold _project_root_dir.
  rewrite (resolve_facts.resolve_absolute_file (with_cwd w dir) Habs).
  rewrite (resolve_facts.resolve_absolute_file w Habs).
  reflexivity.
Qed.

Lemma nonempty_iff (s : string) : pystr.nonempty s = true <-> s <> "".
Proof. destruct s; simpl; split; congruence. Qed.

(** C1, as amended.  The path [load_config] tests and opens comes from the
    explicit argument when one is given, whatever the environment holds;
    otherwise from [CONFIG_PATH] when that variable is set to a non-empty
    string; otherwise it is [<project_root>/config/configuration.yaml].  A
    variable that is set but empty does not count as set. *)
Theorem load_config_path_precedence (w : World) (r : Path) (log : Log) :
  posixpath.isabs (config_loader_file w) = true ->
  _project_root_dir w = inr r ->
  (forall p,
      resolve_config_path w (Some p) log = (inr (rebased r (parse p)), log)) /\
  (forall e,
      getenv w "CONFIG_PATH" = Some e -> e <> "" ->
      resolve_config_path w None log = (inr (rebased r (parse e)), log)) /\
  (getenv w "CONFIG_PATH" = None \/ getenv w "CONFIG_PATH" = Some "" ->
   resolve_config_path w None log = (inr (default_path r), log)).
Proof.
  intros Habs Hr. repeat split.
  - intros p. rewrite resolve_facts.resolve_explicit. now apply located_with_root.
  - intros e He Hne. rewrite (resolve_facts.resolve_env w e log He).
    + now apply located_with_root.
    + now apply nonempty_iff.
  - intros He. apply resolve_facts.resolve_default; auto.
    eapply resolve_facts.project_root_absolute; eassumption.
Qed.

Lemma load_config_path_precedence_witness :
  resolve_config_path (Scenario.world (Scenario.config_path_set "/etc/app.yaml")) (Some "x.yaml") []
  = (inr (truediv Scenario.src_dir (parse "x.yaml")), []) /\
  resolve_config_path (Scenario.world (Scenario.config_path_set "/etc/app.yaml")) None []
  = (inr (parse "/etc/app.yaml"), []) /\
  resolve_config_path (Scenario.world Scenario.unset) None []
  = (inr (default_path Scenario.src_dir), []).
Proof.
  destruct (load_config_path_precedence
              (Scenario.world (Scenario.config_path_set "/etc/app.yaml")) Scenario.src_dir []
              eq_refl eq_refl) as [Hexplicit [Henv _]].
  destruct (load_config_path_precedence
              (Scenario.world Scenario.unset) Scenario.src_dir [] eq_refl eq_refl)
    as [_ [_ Hdefault]].
  split; [|split].
  - exact (Hexplicit "x.yaml").
  - apply (Henv "/etc/app.yaml"); [reflexivity|discriminate].
  - apply Hdefault. left. reflexivity.
Defined.

(** C1, as stated, fails: with [CONFIG_PATH] set to the empty string and no
    explicit argument, the path is not the one the variable's value gives. *)
Lemma config_path_set_but_empty_is_not_used :
  ~ (forall (w : World) (r : Path) (e : string) (log : Log),
        _project_root_dir w = inr r ->
        getenv w "CONFIG_PATH" = Some e ->
        resolve_config_path w None log = (inr (rebased r (parse e)), log)).
Proof.
  intros H.
  specialize (H (Scenario.world (Scenario.config_path_set "")) Scenario.src_dir "" []
                eq_refl eq_refl).
  vm_compute in H. discriminate H.
Qed.

(** C9.  With [CONFIG_PATH] set to the empty string and no explicit argument
    the loader uses the default path, exactly as in a process where no
    variable is set at all. *)
Theorem empty_config_path_falls_through
  (safe_load : string -> exception + yaml) (w : World) (r : Path) (log : Log) :
  posixpath.isabs (config_loader_file w) = true ->
  _project_root_dir w = inr r ->
  getenv w "CONFIG_PATH" = Some "" ->
  resolve_config_path w None log = (inr (default_path r), log) /\
  load_config safe_load w None log =
  load_config safe_load (with_environ w (fun _ => None)) None log.
Proof.
  intros Habs Hr He.
  assert (Hset : resolve_config_path w None log = (inr (default_path r), log)).
  { apply resolve_facts.resolve_default; auto.
    eapply resolve_facts.project_root_absolute; eassumption. }
  assert (Hunset : resolve_config_path (with_environ w (fun _ => None)) None log
                   = (inr (default_path r), log)).
  { apply resolve_facts.resolve_default.
    - left. reflexivity.
    - exact Hr.
    - eapply resolve_facts.project_root_absolute; eassumption. }
  split; [exact Hset|].
  unfold load_config, load_config_body, try_except, bind.
  rewrite Hset, Hunset. reflexivity.
Qed.

Lemma empty_config_path_falls_through_witness :
  resolve_config_path (Scenario.world (Scenario.config_path_set "")) None []
  = (inr (default_path Scenario.src_dir), []) /\
  load_config Scenario.documents (Scenario.world (Scenario.config_path_set "")) None [] =
  load_config Scenario.documents
    (with_environ (Scenario.world (Scenario.config_path_set "")) (fun _ => None)) None [].
Proof.
  apply (empty_config_path_falls_through Scenario.documents
           (Scenario.world (Scenario.config_path_set "")) Scenario.src_dir []);
    reflexivity.
Defined.

(** C7.  A relative path, given as the argument or through a non-empty
    [CONFIG_PATH], is used below the project root: the path has the root and
    the components of the project root, followed by the components of the
    relative path.  An absolute one is used as it is; and in neither case
    does the current directory of the process play a part: the resolved path
    is absolute and the same from any directory. *)
Theorem relative_path_rebased_on_project_root
  (safe_load : string -> exception + yaml) (w : World) (r : Path) (log : Log) :
  posixpath.isabs (config_loader_file w) = true ->
  _project_root_dir w = inr r ->
  (forall p, is_absolute (parse p) = false ->
             resolve_config_path w (Some p) log
             = (inr (mkPath (root r) (tail r ++ tail (parse p))), log)) /\
  (forall e, getenv w "CONFIG_PATH" = Some e -> e <> "" ->
             is_absolute (parse e) = false ->
             resolve_config_path w None log
             = (inr (mkPath (root r) (tail r ++ tail (parse e))), log)) /\
  (forall p, is_absolute (parse p) = true ->
             resolve_config_path w (Some p) log = (inr (parse p), log)) /\
  (forall e, getenv w "CONFIG_PATH" = Some e -> e <> "" ->
             is_absolute (parse e) = true ->
             resolve_config_path w None log = (inr (parse e), log)) /\
  (forall config_path dir,
      resolve_config_path (with_cwd w dir) config_path log =
      resolve_config_path w config_path log /\
      load_config safe_load (with_cwd w dir) config_path log =
      load_config safe_load w config_path log) /\
  (forall config_path path,
      resolve_config_path w config_path log = (inr path, log) ->
      is_absolute path = true).
Proof.
  intros Habs Hr.
  pose proof (resolve_facts.project_root_absolute w r Habs Hr) as Hrabs.
  assert (Hexp : forall p, resolve_config_path w (Some p) log
                           = (inr (rebased r (parse p)), log)).
  { intros p. rewrite resolve_facts.resolve_explicit. now apply located_with_root. }
  assert (Henv : forall e, getenv w "CONFIG_PATH" = Some e -> e <> "" ->
                           resolve_config_path w None log
                           = (inr (rebased r (parse e)), log)).
  { intros e He Hne. rewrite (resolve_facts.resolve_env w e log He).
    - now apply located_with_root.
    - now apply nonempty_iff. }
  assert (Hreb : forall q, is_absolute (rebased r q) = true).
  { intros q. unfold rebased. destruct (is_absolute q) eqn:Hq; [exact Hq|].
    now apply pathlib_facts.truediv_absolute. }
  split; [|split; [|split; [|split; [|split; [intros config_path dir; split|]]]]].
  - intros p Hp. rewrite Hexp. unfold rebased, truediv. now rewrite Hp.
  - intros e He Hne Hp. rewrite (Henv e He Hne). unfold rebased, truediv. now rewrite Hp.
  - intros p Hp. rewrite Hexp. unfold rebased. now rewrite Hp.
  - intros e He Hne Hp. rewrite (Henv e He Hne). unfold rebased. now rewrite Hp.
  - unfold resolve_config_path, select_config_path.
    rewrite (project_root_ignores_cwd w dir Habs). reflexivity.
  - unfold load_config, load_config_body, try_except, bind at 1 5.
    unfold resolve_config_path, select_config_path.
    rewrite (project_root_ignores_cwd w dir Habs). reflexivity.
  - intros config_path path Hpath.
    destruct config_path as [p|].
    + rewrite Hexp in Hpath. injection Hpath as <-. apply Hreb.
    + destruct (getenv w "CONFIG_PATH") as [e|] eqn:He.
      * destruct (String.eqb_spec e "") as [->|Hne].
        -- rewrite (resolve_facts.resolve_default w r log) in Hpath; auto.
           injection Hpath as <-. now apply resolve_facts.default_path_absolute.
        -- rewrite (Henv e eq_refl Hne) in Hpath. injection Hpath as <-. apply Hreb.
      * rewrite (resolve_facts.resolve_default w r log) in Hpath; auto.
        injection Hpath as <-. now apply resolve_facts.default_path_absolute.
Qed.

Lemma relative_path_rebased_on_project_root_witness :
  resolve_config_path (Scenario.world Scenario.unset) (Some "config/empty.yaml") []
  = (inr (mkPath "/" ["Users"; "username"; "Documents";
                      "automated-research-report-generation"; "src";
                      "config"; "empty.yaml"]), []) /\
  resolve_config_path (Scenario.world Scenario.unset) (Some "/etc/app.yaml") []
  = (inr (parse "/etc/app.yaml"), []) /\
  load_config Scenario.documents (with_cwd (Scenario.world Scenario.unset) "/var/run")
              (Some "config/empty.yaml") []
  = load_config Scenario.documents (Scenario.world Scenario.unset)
                (Some "config/empty.yaml") [].
Proof.
  destruct (relative_path_rebased_on_project_root Scenario.documents
              (Scenario.world Scenario.unset) Scenario.src_dir [] eq_refl eq_refl)
    as [Hrel [_ [Habs [_ [Hcwd _]]]]].
  split; [|split].
  - apply Hrel. reflexivity.
  - apply Habs. reflexivity.
  - apply Hcwd.
Defined.

(** ** The configuration loader: failures *)

(** C3.  Whatever makes a call fail, the caller receives a [CustomException]
    with the message "Failed to load configuration file" and, as its second
    argument, the very exception that stopped the body; nothing else escapes.
    This covers a path with no entry, a path that cannot be examined, a
    directory, a file that cannot be read and a text the YAML loader rejects. *)
Theorem load_config_raises_only_the_wrapped_error
  (safe_load : string -> exception + yaml) (w : World)
  (config_path : option string) (log : Log) :
  (forall e log',
      load_config safe_load w config_path log = (inl e, log') ->
      exists cause,
        e = CustomException "Failed to load configuration file" cause /\
        fst (load_config_body safe_load w config_path log) = inl cause) /\
  (forall cause log1,
      load_config_body safe_load w config_path log = (inl cause, log1) ->
      fst (load_config safe_load w config_path log)
      = inl (CustomException "Failed to load configuration file" cause)) /\
  (forall path,
      resolve_config_path w config_path log = (inr path, log) ->
      (fs w (to_str path) = NoEntry ->
       fst (load_config safe_load w config_path log)
       = inl (CustomException "Failed to load configuration file"
                (FileNotFoundError ("Config file not found: " ++ to_str path)))) /\
      (forall e, fs w (to_str path) = Inaccessible e ->
                 fst (load_config safe_load w config_path log)
                 = inl (CustomException "Failed to load configuration file" e)) /\
      (fs w (to_str path) = Directory ->
       fst (load_config safe_load w config_path log)
       = inl (CustomException "Failed to load configuration file" (is_a_directory path))) /\
      (forall e, fs w (to_str path) = RegularFile (inl e) ->
                 fst (load_config safe_load w config_path log)
                 = inl (CustomException "Failed to load configuration file" e)) /\
      (forall text e, fs w (to_str path) = RegularFile (inr text) ->
                      safe_load text = inl e ->
                      fst (load_config safe_load w config_path log)
                      = inl (CustomException "Failed to load configuration file" e))).
Proof.
  split; [|split].
  - intros e log' H.
    destruct (load_facts.load_failure_cases safe_load w config_path log e log' H)
      as [cause [He [Hbody _]]].
    exists cause. split; assumption.
  - intros cause log1 Hbody.
    pose proof (load_facts.load_config_wraps_body safe_load w config_path log) as Hw.
    rewrite Hbody in Hw. rewrite Hw. reflexivity.
  - intros path Hpath. repeat split.
    + intros Hfs. now rewrite (load_facts.load_missing safe_load w config_path log path Hpath Hfs).
    + intros e Hfs.
      now rewrite (load_facts.load_inaccessible safe_load w config_path log path Hpath e Hfs).
    + intros Hfs.
      now rewrite (load_facts.load_directory safe_load w config_path log path Hpath Hfs).
    + intros e Hfs.
      now rewrite (load_facts.load_unreadable safe_load w config_path log path Hpath e Hfs).
    + intros text e Hfs Hdoc.
      now rewrite (load_facts.load_malformed safe_load w config_path log path Hpath text e Hfs Hdoc).
Qed.

Lemma load_config_raises_only_the_wrapped_error_witness :
  fst (load_config Scenario.documents (Scenario.world Scenario.unset)
                   (Some "config/broken.yaml") [])
  = inl (CustomException "Failed to load configuration file"
           (YAMLError "could not parse the document")) /\
  fst (load_config Scenario.documents (Scenario.world Scenario.unset)
                   (Some "/etc/secret.yaml") [])
  = inl (CustomException "Failed to load configuration file"
           (PermissionError "[Errno 13] Permission denied: '/etc/secret.yaml'")).
Proof.
  split.
  - destruct (load_config_raises_only_the_wrapped_error Scenario.documents
                (Scenario.world Scenario.unset) (Some "config/broken.yaml") [])
      as [_ [_ Hkinds]].
    destruct (Hkinds (truediv Scenario.src_dir (parse "config/broken.yaml")) eq_refl)
      as [_ [_ [_ [_ Hyaml]]]].
    apply (Hyaml "a: [1"); reflexivity.
  - destruct (load_config_raises_only_the_wrapped_error Scenario.documents
                (Scenario.world Scenario.unset) (Some "/etc/secret.yaml") [])
      as [_ [_ Hkinds]].
    destruct (Hkinds (parse "/etc/secret.yaml") eq_refl) as [_ [_ [_ [Hread _]]]].
    apply Hread. reflexivity.
Defined.

(** C4, as amended.  A failing call adds to the log exactly one error call
    "Failed to load configuration", as its last call before the wrapped error
    is raised.  When nothing exists at the resolved path, one error call
    "Configuration file not found:" naming that path precedes it, so that two
    error calls are logged; any other failure logs one. *)
Theorem load_config_logs_each_failure
  (safe_load : string -> exception + yaml) (w : World)
  (config_path : option string) (log : Log) (e : exception) (log' : Log) :
  load_config safe_load w config_path log = (inl e, log') ->
  exists cause events,
    e = CustomException "Failed to load configuration file" cause /\
    log' = (log ++ events)%list /\
    count_event "Failed to load configuration" events = 1 /\
    match missing_file w config_path log with
    | Some path =>
        events = [not_found path; failed cause] /\
        count_event "Configuration file not found:" events = 1 /\
        count_errors events = 2
    | None =>
        events = [failed cause] /\
        count_event "Configuration file not found:" events = 0 /\
        count_errors events = 1
    end.
Proof.
  intros H.
  destruct (load_facts.load_failure_cases safe_load w config_path log e log' H)
    as [cause [He [_ Hlog]]].
  destruct (missing_file w config_path log) as [path|].
  - destruct Hlog as [Hcause Hlog].
    exists cause, [not_found path; failed cause]. repeat split; auto.
  - exists cause, [failed cause]. repeat split; auto.
Qed.

Lemma load_config_logs_each_failure_witness :
  exists cause events,
    snd (load_config Scenario.documents (Scenario.world Scenario.unset)
                     (Some "nothere.yaml") []) = events /\
    events = [not_found (truediv Scenario.src_dir (parse "nothere.yaml")); failed cause] /\
    count_errors events = 2.
Proof.
  destruct (load_config_logs_each_failure Scenario.documents (Scenario.world Scenario.unset)
              (Some "nothere.yaml") []
              (wrapped (missing (truediv Scenario.src_dir (parse "nothere.yaml"))))
              [not_found (truediv Scenario.src_dir (parse "nothere.yaml"));
               failed (missing (truediv Scenario.src_dir (parse "nothere.yaml")))]
              eq_refl)
    as [cause [events [_ [Hlog [_ Hcase]]]]].
  change (missing_file (Scenario.world Scenario.unset) (Some "nothere.yaml") [])
    with (Some (truediv Scenario.src_dir (parse "nothere.yaml"))) in Hcase.
  destruct Hcase as [Hev [_ Hcount]].
  exists cause, events. repeat split; [|exact Hev|exact Hcount].
  simpl in Hlog. rewrite <- Hlog. reflexivity.
Defined.

(** C4, as stated, fails: a call for a path that does not exist logs two
    error calls, not one. *)
Lemma missing_file_is_logged_twice :
  ~ (forall (safe_load : string -> exception + yaml) (w : World)
            (config_path : option string) (e : exception) (log' : Log),
        load_config safe_load w config_path [] = (inl e, log') ->
        count_errors log' = 1).
Proof.
  intros H.
  specialize (H Scenario.documents (Scenario.world Scenario.unset) (Some "nothere.yaml")
                _ _ eq_refl).
  vm_compute in H. discriminate H.
Qed.

(** ** The configuration loader: what is returned *)

(** C6.  A readable file whose text is an empty YAML document (the loader
    yields [None]) makes the call return the empty mapping, after one
    success call on the log, and raise nothing. *)
Theorem empty_document_gives_empty_mapping
  (safe_load : string -> exception + yaml) (w : World)
  (config_path : option string) (log : Log) (path : Path) (text : string) :
  resolve_config_path w config_path log = (inr path, log) ->
  fs w (to_str path) = RegularFile (inr text) ->
  safe_load text = inr YNull ->
  load_config safe_load w config_path log
  = (inr (YMap []), (log ++ [loaded path (YMap [])])%list).
Proof.
  intros Hpath Hfs Hdoc.
  rewrite (load_facts.load_parsed safe_load w config_path log path Hpath text YNull Hfs Hdoc).
  reflexivity.
Qed.

Lemma empty_document_gives_empty_mapping_witness :
  fst (load_config Scenario.documents (Scenario.world Scenario.unset)
                   (Some "config/empty.yaml") []) = inr (YMap []).
Proof.
  rewrite (empty_document_gives_empty_mapping Scenario.documents
             (Scenario.world Scenario.unset) (Some "config/empty.yaml") []
             (truediv Scenario.src_dir (parse "config/empty.yaml")) ""
             eq_refl eq_refl eq_refl).
  reflexivity.
Defined.

(** The documents Python takes for false. *)
Lemma falsy_documents (doc : yaml) :
  truthy doc = false <->
  doc = YNull \/ doc = YBool false \/ doc = YInt 0 \/
  (exists f, doc = YFloat f /\ PrimFloat.eqb f PrimFloat.zero = true) \/
  doc = YStr "" \/ doc = YBytes [] \/ doc = YSeq [] \/ doc = YSet [] \/ doc = YMap [].
Proof.
  split.
  - destruct doc as [|b|n|f|s|b|iso|l|l|l]; simpl; intros H.
    + auto.
    + subst b. auto.
    + apply negb_false_iff, Z.eqb_eq in H. subst n. auto.
    + apply negb_false_iff in H. right; right; right; left. eauto.
    + destruct s; [|discriminate]. auto 10.
    + destruct b; [|discriminate]. auto 10.
    + discriminate.
    + destruct l; [|discriminate]. auto 10.
    + destruct l; [|discriminate]. auto 10.
    + destruct l; [|discriminate]. auto 10.
  - intros [->|[->|[->|[[f [-> Hf]]|[->|[->|[->|[->| ->]]]]]]]]; simpl; auto.
    now rewrite Hf.
Qed.

(** C10.  A readable file whose document is false for Python (the scalar
    [false], the number [0], the empty string, an empty sequence or mapping)
    makes the call return the empty mapping, as an empty document does. *)
Theorem falsy_document_gives_empty_mapping
  (safe_load : string -> exception + yaml) (w : World)
  (config_path : option string) (log : Log) (path : Path) (text : string) (doc : yaml) :
  resolve_config_path w config_path log = (inr path, log) ->
  fs w (to_str path) = RegularFile (inr text) ->
  safe_load text = inr doc ->
  truthy doc = false ->
  load_config safe_load w config_path log
  = (inr (YMap []), (log ++ [loaded path (YMap [])])%list).
Proof.
  intros Hpath Hfs Hdoc Hfalse.
  rewrite (load_facts.load_parsed safe_load w config_path log path Hpath text doc Hfs Hdoc).
  unfold py_or. rewrite Hfalse. reflexivity.
Qed.

Lemma falsy_document_gives_empty_mapping_witness :
  truthy (YBool false) = false /\ truthy (YInt 0) = false /\ truthy (YStr "") = false /\
  fst (load_config Scenario.documents (Scenario.world Scenario.unset)
                   (Some "config/false.yaml") []) = inr (YMap []).
Proof.
  split; [reflexivity|]. split; [reflexivity|]. split; [reflexivity|].
  rewrite (falsy_document_gives_empty_mapping Scenario.documents
             (Scenario.world Scenario.unset) (Some "config/false.yaml") []
             (truediv Scenario.src_dir (parse "config/false.yaml")) "false" (YBool false)
             eq_refl eq_refl eq_refl eq_refl).
  reflexivity.
Defined.

(** C8, as amended.  A call that succeeds returns the document of the file
    when Python takes it for true and the empty mapping otherwise; the result
    is a mapping exactly when the document is a mapping or is taken for
    false.  A document of another kind is returned as it is: only the list
    of keys on the log is empty for it. *)
Theorem load_config_returns_the_document_or_empty_mapping
  (safe_load : string -> exception + yaml) (w : World)
  (config_path : option string) (log : Log) (config : yaml) (log' : Log) :
  load_config safe_load w config_path log = (inr config, log') ->
  exists path text doc,
    resolve_config_path w config_path log = (inr path, log) /\
    fs w (to_str path) = RegularFile (inr text) /\
    safe_load text = inr doc /\
    config = (if truthy doc then doc else YMap []) /\
    (is_dict config = true <-> is_dict doc = true \/ truthy doc = false) /\
    (is_dict config = false -> config = doc /\ top_keys config = []) /\
    log' = (log ++ [mkLogEvent INFO "Configuration loaded successfully"
                      [("path", FStr (to_str path)); ("keys", FKeys (top_keys config))]])%list.
Proof.
  intros H.
  destruct (load_facts.load_success_cases safe_load w config_path log config log' H)
    as [path [text [doc [Hpath [Hfs [Hdoc [Hconfig Hlog]]]]]]].
  exists path, text, doc.
  split; [exact Hpath|]. split; [exact Hfs|]. split; [exact Hdoc|].
  assert (Hshape : config = (if truthy doc then doc else YMap [])) by exact Hconfig.
  split; [exact Hshape|]. split; [|split; [|exact Hlog]].
  - rewrite Hshape. destruct (truthy doc); simpl.
    + split; [now left|intros [Hd|Hd]; [exact Hd|discriminate]].
    + split; [now right|reflexivity].
  - rewrite Hshape. destruct (truthy doc); simpl.
    + intros Hd. split; [reflexivity|]. destruct doc; try reflexivity; discriminate.
    + discriminate.
Qed.

Lemma load_config_returns_the_document_or_empty_mapping_witness :
  exists path text doc,
    resolve_config_path (Scenario.world Scenario.unset) (Some "config/list.yaml") []
    = (inr path, []) /\
    fs (Scenario.world Scenario.unset) (to_str path) = RegularFile (inr text) /\
    Scenario.documents text = inr doc /\
    YSeq [YInt 1] = (if truthy doc then doc else YMap []).
Proof.
  destruct (load_config_returns_the_document_or_empty_mapping Scenario.documents
              (Scenario.world Scenario.unset) (Some "config/list.yaml") []
              (YSeq [YInt 1])
              [loaded (truediv Scenario.src_dir (parse "config/list.yaml")) (YSeq [YInt 1])]
              eq_refl)
    as [path [text [doc [Hpath [Hfs [Hdoc [Hconfig _]]]]]]].
  exists path, text, doc. auto.
Defined.

(** C8, as stated, fails: a file that holds a YAML sequence is loaded and
    the sequence, not a mapping, is returned. *)
Lemma sequence_document_is_returned_as_it_is :
  ~ (forall (safe_load : string -> exception + yaml) (w : World)
            (config_path : option string) (log : Log) (config : yaml) (log' : Log),
        load_config safe_load w config_path log = (inr config, log') ->
        is_dict config = true).
Proof.
  intros H.
  specialize (H Scenario.documents (Scenario.world Scenario.unset) (Some "config/list.yaml")
                [] _ _ eq_refl).
  vm_compute in H. discriminate H.
Qed.

(** ** The logger: one configuration per process *)

Module logger_facts.

Import custom_logger.

Section Constructions.

Variable logger_file : string.
Variable cwd : string.
Variable makedirs_error : string -> option exception.
Variable open_error : string -> option exception.

Ltac run := unfold bind, ret, lift, raise, try_except, modify, gets.

(** The process once the first construction has configured it. *)
Lemma first_construction (input : string * datetime) :
  makedirs_error (computed_dir logger_file cwd input) = None ->
  open_error (posixpath.abspath cwd (computed_path logger_file cwd input)) = None ->
  __init__ logger_file cwd makedirs_error open_error (fst input) (snd input) fresh_process =
  (inr (mkCustomLogger (computed_dir logger_file cwd input) (computed_path logger_file cwd input)),
   mkProcess true (installed_handlers cwd (computed_path logger_file cwd input)) INFO
             (Some pipeline) [posixpath.abspath cwd (computed_path logger_file cwd input)] 1).
Proof.
  intros Hdir Hopen.
  unfold __init__, makedirs, _configure, FileHandler, basicConfig, structlog_configure.
  fold (computed_dir logger_file cwd input).
  fold (computed_path logger_file cwd input). run.
  rewrite Hdir. cbv beta iota. cbn [_configured fresh_process negb log_file_path].
  cbv beta iota. rewrite Hopen. reflexivity.
Qed.

(** A construction in a configured process only computes its two paths. *)
Lemma later_construction (input : string * datetime) (p : Process) :
  _configured p = true ->
  makedirs_error (computed_dir logger_file cwd input) = None ->
  __init__ logger_file cwd makedirs_error open_error (fst input) (snd input) p =
  (inr (mkCustomLogger (computed_dir logger_file cwd input) (computed_path logger_file cwd input)), p).
Proof.
  intros Hconf Hdir. unfold __init__, makedirs.
  fold (computed_dir logger_file cwd input).
  fold (computed_path logger_file cwd input). run.
  rewrite Hdir. cbv beta iota. rewrite Hconf. reflexivity.
Qed.

Lemma later_constructions (inputs : list (string * datetime)) (p : Process) :
  _configured p = true ->
  (forall input, In input inputs -> makedirs_error (computed_dir logger_file cwd input) = None) ->
  construct_all logger_file cwd makedirs_error open_error inputs p =
  (inr (map (fun input => mkCustomLogger (computed_dir logger_file cwd input) (computed_path logger_file cwd input)) inputs), p).
Proof.
  intros Hconf. induction inputs as [|[log_dir now] inputs IH]; intros Hdirs.
  - reflexivity.
  - pose proof (later_construction (log_dir, now) p Hconf
                  (Hdirs _ (or_introl eq_refl))) as Hhead.
    cbn [fst snd] in Hhead.
    cbn [construct_all]. unfold bind at 1. rewrite Hhead.
    unfold bind at 1. rewrite IH by (intros input Hin; apply Hdirs; now right).
    reflexivity.
Qed.

End Constructions.

End logger_facts.

(** C5, as amended.  In a process that starts unconfigured and with a
    root logger without handlers, any number of constructions (one at least)
    whose directory and file can be created all return normally; [_configure] runs once, during the first of them, and the state
    the first one leaves is the final state: the handlers are the pair built
    for the first log file and that file is the only one opened, although
    each instance holds the path computed from its own time of construction. *)
Theorem configuration_runs_once
  (logger_file cwd : string) (makedirs_error open_error : string -> option exception)
  (first : string * custom_logger.datetime)
  (others : list (string * custom_logger.datetime)) :
  (forall input, In input (first :: others) ->
                 makedirs_error (custom_logger.computed_dir logger_file cwd input) = None) ->
  open_error (posixpath.abspath cwd (custom_logger.computed_path logger_file cwd first)) = None ->
  exists instances final,
    custom_logger.construct_all logger_file cwd makedirs_error open_error
      (first :: others) custom_logger.fresh_process = (inr instances, final) /\
    map custom_logger.log_file_path instances
    = map (custom_logger.computed_path logger_file cwd) (first :: others) /\
    custom_logger.configure_runs final = 1 /\
    custom_logger._configured final = true /\
    custom_logger.root_handlers final
    = custom_logger.installed_handlers cwd (custom_logger.computed_path logger_file cwd first) /\
    custom_logger.opened_files final
    = [posixpath.abspath cwd (custom_logger.computed_path logger_file cwd first)] /\
    custom_logger.structlog_config final = Some custom_logger.pipeline /\
    snd (custom_logger.__init__ logger_file cwd makedirs_error open_error
           (fst first) (snd first) custom_logger.fresh_process) = final.
Proof.
  intros Hdirs Hopen.
  pose proof (logger_facts.first_construction logger_file cwd makedirs_error open_error
                first (Hdirs first (or_introl eq_refl)) Hopen) as Hfirst.
  destruct first as [log_dir now].
  eexists. eexists. split.
  - cbn [custom_logger.construct_all]. unfold bind at 1.
    cbn [fst snd] in Hfirst. rewrite Hfirst.
    unfold bind at 1.
    rewrite logger_facts.later_constructions;
      [reflexivity | reflexivity | intros input Hin; apply Hdirs; now right].
  - cbn [fst snd] in *. rewrite Hfirst. cbn.
    repeat split. f_equal. rewrite map_map. reflexivity.
Qed.

Lemma configuration_runs_once_witness :
  exists instances final,
    custom_logger.construct_all Scenario.logger_file "/tmp"
      Scenario.always_succeeds Scenario.always_succeeds
      [("logs", Scenario.morning); ("logs", Scenario.noon); ("logs", Scenario.noon)]
      custom_logger.fresh_process = (inr instances, final) /\
    map custom_logger.log_file_path instances
    = [Scenario.repo ++ "/logs/log_11_04_2026_07_05_09.log";
       Scenario.repo ++ "/logs/log_11_04_2026_12_00_00.log";
       Scenario.repo ++ "/logs/log_11_04_2026_12_00_00.log"] /\
    custom_logger.configure_runs final = 1 /\
    custom_logger.opened_files final = [Scenario.repo ++ "/logs/log_11_04_2026_07_05_09.log"].
Proof.
  destruct (configuration_runs_once Scenario.logger_file "/tmp"
              Scenario.always_succeeds Scenario.always_succeeds
              ("logs", Scenario.morning) [("logs", Scenario.noon); ("logs", Scenario.noon)]
              (fun _ _ => eq_refl) eq_refl)
    as [instances [final [Hrun [Hpaths [Hruns [_ [_ [Hopened _]]]]]]]].
  exists instances, final.
  split; [exact Hrun|]. split; [exact Hpaths|]. split; [exact Hruns|exact Hopened].
Defined.

(** ** The two project roots *)

(** C2.  With the two modules where the repository keeps them, the loader
    and the logger do not compute the same root: [parents[1]] of the loader
    stops at the [src] directory, one level below the directory the logger
    reaches with its two [".."].  The default configuration path is
    therefore looked up under [src/config], while the logs go to [logs] next
    to [src]. *)
Theorem loader_root_is_one_level_below_logger_root :
  _project_root_dir (Scenario.world Scenario.unset) = inr Scenario.src_dir /\
  to_str Scenario.src_dir = Scenario.repo ++ "/src" /\
  custom_logger.root_dir Scenario.logger_file "/tmp" = Scenario.repo /\
  resolve_config_path (Scenario.world Scenario.unset) None []
  = (inr (parse (Scenario.repo ++ "/src/config/configuration.yaml")), []) /\
  custom_logger.computed_dir Scenario.logger_file "/tmp" ("logs", Scenario.morning)
  = Scenario.repo ++ "/logs" /\
  to_str Scenario.src_dir <> custom_logger.root_dir Scenario.logger_file "/tmp".
Proof.
  split; [reflexivity|]. split; [reflexivity|]. split; [reflexivity|].
  split; [reflexivity|]. split; [reflexivity|].
  vm_compute. discriminate.
Qed.

(** ** The two roots in any checkout *)

Module layout_facts.

Import pystr pystr_facts posixpath Layout.

Lemma name_part_sep_free (x : string) : name_part x = true -> contains_sep x = false.
Proof.
  unfold name_part. intros H. apply andb_prop in H. destruct H as [H _].
  now destruct (contains_sep x).
Qed.

Lemma name_part_nonempty (x : string) : name_part x = true -> nonempty x = true.
Proof. unfold name_part. intros H. apply andb_prop in H. tauto. Qed.

Lemma ordinary_name_part (x : string) : ordinary x = true -> name_part x = true.
Proof.
  unfold ordinary. intros H. apply andb_prop in H. destruct H as [H _].
  apply andb_prop in H. tauto.
Qed.

Lemma ordinary_names (l : list string) :
  forallb ordinary l = true -> forallb name_part l = true.
Proof.
  rewrite !forallb_forall. intros H x Hx. apply ordinary_name_part. now apply H.
Qed.

Lemma append_empty (a : string) : a ++ "" = a.
Proof. induction a as [|c a IH]; simpl; [reflexivity|now rewrite IH]. Qed.

Lemma append_assoc (a b c : string) : (a ++ b) ++ c = a ++ (b ++ c).
Proof. induction a as [|x a IH]; simpl; [reflexivity|now rewrite IH]. Qed.

(** ["/".join(l + [x])] *)
Lemma join_snoc (l : list string) (x : string) :
  l <> [] -> pystr.join (l ++ [x]) = pystr.join l ++ String sep x.
Proof.
  induction l as [|y l IH]; [congruence|]. intros _.
  destruct l as [|z l].
  - reflexivity.
  - change (pystr.join ((y :: z :: l) ++ [x]))
      with (y ++ String sep (pystr.join ((z :: l) ++ [x]))).
    rewrite IH by discriminate.
    change (pystr.join (y :: z :: l)) with (y ++ String sep (pystr.join (z :: l))).
    rewrite append_assoc. reflexivity.
Qed.

Lemma endswith_sep_app (a b : string) :
  nonempty b = true -> endswith_sep (a ++ b) = endswith_sep b.
Proof.
  intros Hb. induction a as [|c a IH]; [reflexivity|].
  simpl. rewrite IH.
  destruct (a ++ b) as [|c' r] eqn:Hab; [|reflexivity].
  destruct a; destruct b; simpl in *; discriminate.
Qed.

Lemma sep_free_not_endswith (x : string) :
  contains_sep x = false -> endswith_sep x = false.
Proof.
  induction x as [|c x IH]; [reflexivity|]. simpl.
  destruct (is_sep c); simpl; [discriminate|].
  intros H. destruct x; [reflexivity|now apply IH].
Qed.

(** The text of a path with at least one name does not end with a slash. *)
Lemma absolute_not_endswith (l : list string) :
  l <> [] -> forallb name_part l = true -> endswith_sep (absolute l) = false.
Proof.
  intros Hne Hall. destruct (exists_last Hne) as [l' [x ->]].
  rewrite forallb_app in Hall. apply andb_prop in Hall. destruct Hall as [_ Hx].
  simpl in Hx. rewrite andb_true_r in Hx.
  unfold absolute. destruct l' as [|y l'].
  - simpl pystr.join. rewrite endswith_sep_app by now apply name_part_nonempty.
    now apply sep_free_not_endswith, name_part_sep_free.
  - rewrite join_snoc by discriminate.
    rewrite <- append_assoc.
    change (String sep x) with (String sep "" ++ x). rewrite <- append_assoc.
    rewrite endswith_sep_app by now apply name_part_nonempty.
    now apply sep_free_not_endswith, name_part_sep_free.
Qed.

(** [os.path.join(path, x)] adds one name to an absolute path. *)
Lemma join2_absolute_name (l : list string) (x : string) :
  forallb name_part l = true -> name_part x = true ->
  join2 (absolute l) x = absolute (l ++ [x]).
Proof.
  intros Hl Hx. unfold join2.
  rewrite (sep_free_not_startswith x) by now apply name_part_sep_free.
  destruct l as [|y l].
  - reflexivity.
  - rewrite absolute_not_endswith by (discriminate || assumption).
    unfold absolute at 1. cbn [nonempty append negb orb].
    unfold absolute. rewrite join_snoc by discriminate.
    rewrite append_assoc. reflexivity.
Qed.

Lemma ordinary_tests (x : string) :
  ordinary x = true -> (x =? "") = false /\ (x =? ".") = false /\ (x =? "..") = false.
Proof.
  unfold ordinary, name_part. intros H.
  apply andb_prop in H. destruct H as [H Hdd].
  apply andb_prop in H. destruct H as [H Hd].
  apply andb_prop in H. destruct H as [_ Hne].
  apply negb_true_iff in Hd, Hdd. destruct x; [discriminate|auto].
Qed.

(** The first character of the joined names is not a slash. *)
Lemma join_head (l : list string) :
  l <> [] -> forallb name_part l = true ->
  exists c r, pystr.join l = String c r /\ is_sep c = false.
Proof.
  destruct l as [|x l]; [congruence|]. intros _ Hall.
  simpl in Hall. apply andb_prop in Hall. destruct Hall as [Hx _].
  pose proof (name_part_sep_free _ Hx) as Hfree.
  apply name_part_nonempty in Hx.
  destruct x as [|c x]; [discriminate|].
  simpl in Hfree. apply orb_false_elim in Hfree. destruct Hfree as [Hc _].
  destruct l as [|y l].
  - exists c, x. auto.
  - exists c, (x ++ String sep (pystr.join (y :: l))). auto.
Qed.

(** [_joinrealpath] leaves a path of ordinary names as it is. *)
Lemma joinrealpath_fold_ordinary (l done : list string) :
  forallb ordinary l = true -> forallb name_part done = true ->
  fold_left joinrealpath_step l (absolute done) = absolute (done ++ l).
Proof.
  revert done. induction l as [|x l IH]; intros done Hl Hdone.
  - now rewrite app_nil_r.
  - simpl in Hl. apply andb_prop in Hl. destruct Hl as [Hx Hl].
    destruct (ordinary_tests _ Hx) as [He [Hd Hdd]].
    cbn [fold_left]. unfold joinrealpath_step at 2. rewrite He, Hd, Hdd. cbn [orb].
    rewrite join2_absolute_name by auto using ordinary_name_part.
    rewrite IH.
    + now rewrite <- app_assoc.
    + exact Hl.
    + rewrite forallb_app, Hdone. simpl. now rewrite (ordinary_name_part _ Hx).
Qed.

Lemma joinrealpath_ordinary (l : list string) :
  forallb ordinary l = true -> joinrealpath (absolute l) = absolute l.
Proof.
  intros Hl. unfold joinrealpath, absolute at 1. cbn [append].
  change (is_sep "/") with true. cbv iota.
  destruct l as [|x l].
  - reflexivity.
  - rewrite split_join.
    + exact (joinrealpath_fold_ordinary (x :: l) [] Hl eq_refl).
    + discriminate.
    + apply Forall_forall. intros y Hy. apply name_part_sep_free.
      pose proof (ordinary_names _ Hl) as Hn. rewrite forallb_forall in Hn. now apply Hn.
Qed.

Lemma initial_slashes_one (r : string) :
  startswith_sep r = false -> initial_slashes (String sep r) = 1.
Proof.
  destruct r as [|c [|c' r]]; simpl; [reflexivity| |]; intros ->; reflexivity.
Qed.

(** [normpath] of an absolute path, as the loop over its names. *)
Lemma normpath_absolute_names (l : list string) :
  forallb name_part l = true ->
  normpath (absolute l) = absolute (rev (fold_left (normpath_step 1) l [])).
Proof.
  intros Hl. destruct l as [|x l]; [reflexivity|].
  destruct (join_head (x :: l) ltac:(discriminate) Hl) as [c [r [Hj Hc]]].
  assert (Hinit : initial_slashes (absolute (x :: l)) = 1).
  { unfold absolute. apply (initial_slashes_one (pystr.join (x :: l))).
    rewrite Hj. exact Hc. }
  assert (Hsplit : split (absolute (x :: l)) = EmptyString :: x :: l).
  { unfold absolute. change (split ("/" ++ pystr.join (x :: l)))
      with (EmptyString :: split (pystr.join (x :: l))).
    rewrite split_join; [reflexivity|discriminate|].
    apply Forall_forall. intros y Hy. apply name_part_sep_free.
    rewrite forallb_forall in Hl. now apply Hl. }
  unfold normpath. rewrite Hinit, Hsplit.
  reflexivity.
Qed.

Lemma normpath_fold_ordinary (l acc : list string) :
  forallb ordinary l = true ->
  fold_left (normpath_step 1) l acc = (rev l ++ acc)%list.
Proof.
  revert acc. induction l as [|x l IH]; intros acc Hl; [reflexivity|].
  simpl in Hl. apply andb_prop in Hl. destruct Hl as [Hx Hl].
  destruct (ordinary_tests _ Hx) as [He [Hd Hdd]].
  cbn [fold_left]. unfold normpath_step at 2. rewrite He, Hd, Hdd. cbn [orb negb].
  rewrite IH by exact Hl. cbn [rev]. now rewrite <- app_assoc.
Qed.

Lemma normpath_ordinary (l : list string) :
  forallb ordinary l = true -> normpath (absolute l) = absolute l.
Proof.
  intros Hl. rewrite normpath_absolute_names by now apply ordinary_names.
  rewrite normpath_fold_ordinary by exact Hl.
  now rewrite app_nil_r, rev_involutive.
Qed.

(** Two [".."] after two ordinary names take both names back. *)
Lemma normpath_two_levels_up (l : list string) (a b : string) :
  forallb ordinary l = true -> ordinary a = true -> ordinary b = true ->
  normpath (absolute (l ++ [a; b; ".."; ".."])) = absolute l.
Proof.
  intros Hl Ha Hb.
  rewrite normpath_absolute_names.
  - rewrite fold_left_app, (normpath_fold_ordinary l [] Hl).
    rewrite app_nil_r.
    destruct (ordinary_tests _ Ha) as [Hae [Had Hadd]].
    destruct (ordinary_tests _ Hb) as [Hbe [Hbd Hbdd]].
    cbn [fold_left]. unfold normpath_step.
    rewrite Hae, Had, Hadd, Hbe, Hbd, Hbdd. cbn.
    rewrite Hbdd, Hadd. cbn. now rewrite rev_involutive.
  - rewrite forallb_app, (ordinary_names _ Hl). simpl.
    now rewrite (ordinary_name_part _ Ha), (ordinary_name_part _ Hb).
Qed.

Lemma upto_last_sep_sep_free (x : string) :
  contains_sep x = false -> upto_last_sep x = "".
Proof. destruct x as [|c x]; [reflexivity|]. cbn [upto_last_sep]. now intros ->. Qed.

Lemma contains_sep_app (a b : string) :
  contains_sep (a ++ String sep b) = true.
Proof.
  induction a as [|c a IH]; simpl; [reflexivity|]. rewrite IH. apply orb_true_r.
Qed.

Lemma upto_last_sep_app (a x : string) :
  contains_sep x = false -> upto_last_sep (a ++ String sep x) = a ++ String sep "".
Proof.
  intros Hx. induction a as [|c a IH].
  - cbn [append upto_last_sep]. change (contains_sep (String sep x)) with true.
    cbv iota. now rewrite upto_last_sep_sep_free.
  - cbn [append upto_last_sep].
    change (contains_sep (String c (a ++ String sep x)))
      with (is_sep c || contains_sep (a ++ String sep x)).
    rewrite contains_sep_app, orb_true_r, IH. reflexivity.
Qed.

Lemma rstrip_app_sep (a : string) : rstrip (a ++ String sep "") = rstrip a.
Proof.
  induction a as [|c a IH]; [reflexivity|]. cbn [append rstrip]. now rewrite IH.
Qed.

Lemma rstrip_not_endswith (a : string) : endswith_sep a = false -> rstrip a = a.
Proof.
  induction a as [|c a IH]; [reflexivity|].
  destruct a as [|c' a].
  - simpl. now intros ->.
  - intros H. change (endswith_sep (String c (String c' a)))
      with (endswith_sep (String c' a)) in H.
    cbn [rstrip] in *. rewrite (IH H). reflexivity.
Qed.

(** [os.path.dirname] drops the last name of an absolute path. *)
Lemma dirname_absolute_snoc (l : list string) (x : string) :
  forallb name_part l = true -> name_part x = true ->
  dirname (absolute (l ++ [x])) = absolute l.
Proof.
  intros Hl Hx. pose proof (name_part_sep_free _ Hx) as Hfree.
  unfold dirname. destruct l as [|y l].
  - change (absolute ([] ++ [x])) with (String sep x).
    cbn [upto_last_sep]. change (contains_sep (String sep x)) with true. cbv iota.
    rewrite upto_last_sep_sep_free by exact Hfree. reflexivity.
  - assert (Habs : absolute ((y :: l) ++ [x]) = absolute (y :: l) ++ String sep x).
    { unfold absolute. rewrite join_snoc by discriminate. now rewrite append_assoc. }
    rewrite Habs, upto_last_sep_app by exact Hfree.
    destruct (join_head (y :: l) ltac:(discriminate) Hl) as [c [r [Hj Hc]]].
    assert (Hall : all_sep (absolute (y :: l) ++ String sep "") = false).
    { unfold absolute. rewrite Hj. simpl. now rewrite Hc. }
    assert (Hne : nonempty (absolute (y :: l) ++ String sep "") = true) by reflexivity.
    rewrite Hall, Hne. cbn [negb andb].
    rewrite rstrip_app_sep. apply rstrip_not_endswith.
    apply absolute_not_endswith; [discriminate|exact Hl].
Qed.

Lemma ordinary_plain (l : list string) :
  forallb ordinary l = true -> forallb pathlib.plain_part l = true.
Proof.
  rewrite !forallb_forall. intros H x Hx. specialize (H x Hx).
  destruct (ordinary_tests _ H) as [_ [Hd _]].
  pose proof (ordinary_name_part _ H) as Hn.
  unfold pathlib.plain_part, pathlib.keep_part.
  rewrite (name_part_sep_free _ Hn), (name_part_nonempty _ Hn), Hd. reflexivity.
Qed.

(** [Path] of the text of an absolute path has its names as components. *)
Lemma parse_absolute_ordinary (l : list string) :
  forallb ordinary l = true -> pathlib.parse (absolute l) = pathlib.mkPath "/" l.
Proof.
  intros Hl.
  change (absolute l) with (pathlib.to_str (pathlib.mkPath "/" l)).
  apply pathlib_facts.parse_to_str. unfold pathlib.well_formed. cbn [pathlib.root pathlib.tail].
  now rewrite (ordinary_plain _ Hl).
Qed.

(** The root the logger computes in a checkout at [/<repo>]. *)
Lemma logger_root_in_checkout (repo : list string) (cwd : string) :
  forallb ordinary repo = true ->
  custom_logger.root_dir (logger_file_in repo) cwd = absolute repo.
Proof.
  intros Hrepo. pose proof (ordinary_names _ Hrepo) as Hnames.
  unfold custom_logger.root_dir, logger_file_in.
  change (repo ++ ["src"; "logger"; "custom_logger.py"])%list
    with (repo ++ ["src"; "logger"] ++ ["custom_logger.py"])%list.
  rewrite app_assoc, dirname_absolute_snoc;
    [|rewrite forallb_app, Hnames; reflexivity|reflexivity].
  unfold join. cbn [fold_left].
  rewrite join2_absolute_name;
    [|rewrite forallb_app, Hnames; reflexivity|reflexivity].
  rewrite join2_absolute_name;
    [|rewrite !forallb_app, Hnames; reflexivity|reflexivity].
  rewrite <- !app_assoc. cbn [app].
  unfold abspath. change (isabs (absolute (repo ++ ["src"; "logger"; ".."; ".."]))) with true.
  cbv iota. now apply normpath_two_levels_up.
Qed.

(** The root the loader computes in the same checkout. *)
Lemma loader_root_in_checkout (repo : list string) (w : World) :
  forallb ordinary repo = true ->
  config_loader_file w = loader_file_in repo ->
  config_loader._project_root_dir w = inr (pathlib.mkPath "/" (repo ++ ["src"])).
Proof.
  intros Hrepo Hfile.
  assert (Hall : forallb ordinary (repo ++ ["src"; "utlis"; "config_loader.py"]) = true)
    by (rewrite forallb_app, Hrepo; reflexivity).
  unfold config_loader._project_root_dir, config_loader.resolve, realpath.
  rewrite Hfile. unfold loader_file_in.
  rewrite (parse_absolute_ordinary _ Hall).
  change (pathlib.to_str (pathlib.mkPath "/" (repo ++ ["src"; "utlis"; "config_loader.py"])))
    with (absolute (repo ++ ["src"; "utlis"; "config_loader.py"])).
  rewrite (joinrealpath_ordinary _ Hall).
  unfold abspath.
  change (isabs (absolute (repo ++ ["src"; "utlis"; "config_loader.py"]))) with true.
  cbv iota. rewrite (normpath_ordinary _ Hall), (parse_absolute_ordinary _ Hall).
  unfold config_loader.parents. cbn [pathlib.tail pathlib.root].
  rewrite length_app. cbn [List.length].
  replace (Nat.leb (List.length repo + 3) 1) with false
    by (symmetry; apply Nat.leb_gt; lia).
  replace (List.length repo + 3 - 1 - 1) with (List.length repo + 1) by lia.
  change (repo ++ ["src"; "utlis"; "config_loader.py"])%list
    with (repo ++ ["src"] ++ ["utlis"; "config_loader.py"])%list.
  rewrite app_assoc.
  replace (List.length repo + 1) with (List.length (repo ++ ["src"]) + 0)
    by (rewrite length_app; cbn [List.length]; lia).
  rewrite firstn_app_2. cbn [firstn]. now rewrite app_nil_r.
Qed.

(** Wherever the repository is checked out (no symbolic link on the way),
    the loader's root is the [src] directory of the checkout and the
    logger's root the checkout itself. *)
Lemma roots_differ_in_every_checkout (repo : list string) (w : World) (cwd : string) :
  forallb ordinary repo = true ->
  config_loader_file w = loader_file_in repo ->
  config_loader._project_root_dir w = inr (pathlib.mkPath "/" (repo ++ ["src"])) /\
  pathlib.to_str (pathlib.mkPath "/" (repo ++ ["src"])) = absolute (repo ++ ["src"]) /\
  custom_logger.root_dir (logger_file_in repo) cwd = absolute repo /\
  absolute (repo ++ ["src"]) <> absolute repo.
Proof.
  intros Hrepo Hfile.
  split; [now apply loader_root_in_checkout|]. split; [reflexivity|].
  split; [now apply logger_root_in_checkout|].
  intros Heq.
  assert (Hsrc : forallb ordinary (repo ++ ["src"]) = true)
    by (rewrite forallb_app, Hrepo; reflexivity).
  pose proof (parse_absolute_ordinary _ Hsrc) as H1.
  pose proof (parse_absolute_ordinary _ Hrepo) as H2.
  rewrite Heq, H2 in H1. injection H1 as H1.
  apply (f_equal (@List.length string)) in H1.
  rewrite length_app in H1. cbn [List.length] in H1. lia.
Qed.

End layout_facts.

(** C5, as stated, fails in two ways.  With a root logger that has a
    handler already, the constructions succeed and [_configure] runs, yet
    the log file of the first construction is not among the handlers.  And
    when the first log file cannot be opened, the next construction runs
    [_configure] a second time. *)
Lemma first_log_file_is_not_always_the_sink :
  ~ (forall (p : custom_logger.Process) (first : string * custom_logger.datetime)
            (others : list (string * custom_logger.datetime)),
        custom_logger._configured p = false ->
        exists instances final,
          custom_logger.construct_all Scenario.logger_file "/tmp"
            Scenario.always_succeeds Scenario.always_succeeds (first :: others) p
          = (inr instances, final) /\
          custom_logger.configure_runs final = S (custom_logger.configure_runs p) /\
          In (custom_logger.mkHandler
                (custom_logger.FileSink
                   (posixpath.abspath "/tmp"
                      (custom_logger.computed_path Scenario.logger_file "/tmp" first)))
                INFO (Some "%(message)s"))
             (custom_logger.root_handlers final)) /\
  ~ (forall (open_error : string -> option exception)
            (first second : string * custom_logger.datetime)
            (r1 r2 : exception + custom_logger.CustomLogger)
            (p1 p2 : custom_logger.Process),
        custom_logger.__init__ Scenario.logger_file "/tmp" Scenario.always_succeeds
          open_error (fst first) (snd first) custom_logger.fresh_process = (r1, p1) ->
        custom_logger.__init__ Scenario.logger_file "/tmp" Scenario.always_succeeds
          open_error (fst second) (snd second) p1 = (r2, p2) ->
        custom_logger.configure_runs p2 = 1).
Proof.
  split.
  - intros H.
    destruct (H (custom_logger.mkProcess false [custom_logger.StreamHandler]
                   WARNING None [] 0)
                ("logs", Scenario.morning) [] eq_refl)
      as [instances [final [Hrun [_ Hsink]]]].
    vm_compute in Hrun. injection Hrun as _ <-.
    vm_compute in Hsink. destruct Hsink as [Hsink|[]]. discriminate Hsink.
  - intros H.
    pose (open_error := fun path =>
            if path =? Scenario.repo ++ "/logs/log_11_04_2026_07_05_09.log"
            then Some (PermissionError "[Errno 13] Permission denied")
            else None).
    destruct (custom_logger.__init__ Scenario.logger_file "/tmp" Scenario.always_succeeds
                open_error "logs" Scenario.morning custom_logger.fresh_process)
      as [r1 p1] eqn:H1.
    destruct (custom_logger.__init__ Scenario.logger_file "/tmp" Scenario.always_succeeds
                open_error "logs" Scenario.noon p1) as [r2 p2] eqn:H2.
    pose proof (H open_error ("logs", Scenario.morning) ("logs", Scenario.noon)
                  r1 r2 p1 p2 H1 H2) as Hruns.
    vm_compute in H1. injection H1 as Hr1 Hp1. subst r1 p1.
    vm_compute in H2. injection H2 as Hr2 Hp2. subst r2 p2.
    vm_compute in Hruns. discriminate Hruns.
Qed.

(** ** Further properties of the logger *)

Module logger_api_facts.

Import pystr pystr_facts posixpath custom_logger logger_api.

Lemma after_last_sep_app (a x : string) :
  contains_sep x = false -> after_last_sep (a ++ String sep x) = x.
Proof.
  intros Hx. induction a as [|c a IH].
  - cbn [append after_last_sep]. change (contains_sep (String sep x)) with true.
    cbv iota. destruct x as [|c x]; [reflexivity|].
    cbn [after_last_sep]. now rewrite Hx.
  - cbn [append after_last_sep].
    change (contains_sep (String c (a ++ String sep x)))
      with (is_sep c || contains_sep (a ++ String sep x)).
    now rewrite layout_facts.contains_sep_app, orb_true_r.
Qed.

Lemma after_last_sep_sep_free (s : string) : contains_sep (after_last_sep s) = false.
Proof.
  induction s as [|c s IH]; [reflexivity|]. cbn [after_last_sep].
  destruct (contains_sep (String c s)) eqn:Hc; [exact IH|exact Hc].
Qed.

(** [os.path.split]: head and tail put together give the path back. *)
Lemma split_recombines (s : string) : upto_last_sep s ++ after_last_sep s = s.
Proof.
  induction s as [|c s IH]; [reflexivity|]. cbn [upto_last_sep after_last_sep].
  destruct (contains_sep (String c s)); [|reflexivity].
  cbn [append]. now rewrite IH.
Qed.

Lemma upto_last_sep_ends (s : string) :
  upto_last_sep s = "" \/ endswith_sep (upto_last_sep s) = true.
Proof.
  induction s as [|c s IH]; [now left|]. cbn [upto_last_sep].
  destruct (contains_sep (String c s)) eqn:Hc; [right|now left].
  destruct IH as [IH|IH].
  - rewrite IH. simpl in Hc.
    destruct (is_sep c) eqn:Hsep; [simpl; exact Hsep|].
    simpl in Hc. destruct s as [|c' s]; [discriminate|].
    cbn [upto_last_sep] in IH. rewrite Hc in IH. discriminate.
  - cbn [endswith_sep]. destruct (upto_last_sep s); [discriminate|exact IH].
Qed.

End logger_api_facts.

(** X1.  [get_logger] names the logger after the last component of the
    path it is given: the directories before it play no part, and a name
    without a slash is taken whole. *)
Theorem get_logger_drops_the_directories
  (self : custom_logger.CustomLogger) (dir name : string) :
  pystr.contains_sep name = false ->
  logger_api.logger_name (logger_api.get_logger self (dir ++ "/" ++ name)) = name /\
  logger_api.logger_name (logger_api.get_logger self name) = name.
Proof.
  intros Hname. split.
  - exact (logger_api_facts.after_last_sep_app dir name Hname).
  - unfold logger_api.get_logger, posixpath.basename. cbn [logger_api.logger_name].
    destruct name as [|c name]; [reflexivity|].
    cbn [pystr.after_last_sep]. now rewrite Hname.
Qed.

Lemma get_logger_drops_the_directories_witness :
  logger_api.logger_name
    (logger_api.get_logger (custom_logger.mkCustomLogger "" "") ("/a/b" ++ "/" ++ "my_module.py"))
  = "my_module.py" /\
  logger_api.logger_name
    (logger_api.get_logger (custom_logger.mkCustomLogger "" "") "my_module.py")
  = "my_module.py".
Proof.
  apply (get_logger_drops_the_directories (custom_logger.mkCustomLogger "" "")
           "/a/b" "my_module.py").
  reflexivity.
Defined.

(** X2.  For every argument, the name [get_logger] uses is what follows the
    last slash of the argument: it holds no slash itself, the part cut off
    is empty or ends with a slash, and an argument that ends with a slash
    gives the empty name. *)
Theorem get_logger_name_is_the_part_after_the_last_slash
  (self : custom_logger.CustomLogger) (name : string) :
  (exists prefix,
      name = prefix ++ logger_api.logger_name (logger_api.get_logger self name) /\
      (prefix = "" \/ pystr.endswith_sep prefix = true)) /\
  pystr.contains_sep (logger_api.logger_name (logger_api.get_logger self name)) = false /\
  logger_api.logger_name (logger_api.get_logger self (name ++ "/")) = "".
Proof.
  split; [|split].
  - exists (pystr.upto_last_sep name). split.
    + symmetry. apply logger_api_facts.split_recombines.
    + apply logger_api_facts.upto_last_sep_ends.
  - apply logger_api_facts.after_last_sep_sep_free.
  - exact (logger_api_facts.after_last_sep_app name "" eq_refl).
Qed.

Module construction_facts.

Import custom_logger.

Section Construction.

Variable logger_file : string.
Variable cwd : string.
Variable makedirs_error : string -> option exception.
Variable open_error : string -> option exception.
Variable input : string * datetime.
Variable p : Process.

Ltac run := unfold bind, ret, lift, raise, try_except, modify, gets.

Ltac enter :=
  unfold __init__, makedirs, _configure, FileHandler, basicConfig, structlog_configure;
  fold (computed_dir logger_file cwd input);
  fold (computed_path logger_file cwd input); run.

(** [os.makedirs] fails: its error leaves [__init__] before anything else
    has happened. *)
Lemma makedirs_fails (e : exception) :
  makedirs_error (computed_dir logger_file cwd input) = Some e ->
  __init__ logger_file cwd makedirs_error open_error (fst input) (snd input) p = (inl e, p).
Proof. intros Hdir. enter. rewrite Hdir. reflexivity. Qed.

(** The log file cannot be opened: [_configure] stops at its first
    statement and the flag is not set. *)
Lemma open_fails (e : exception) :
  _configured p = false ->
  makedirs_error (computed_dir logger_file cwd input) = None ->
  open_error (posixpath.abspath cwd (computed_path logger_file cwd input)) = Some e ->
  __init__ logger_file cwd makedirs_error open_error (fst input) (snd input) p =
  (inl e, mkProcess false (root_handlers p) (root_level p) (structlog_config p)
                    (opened_files p) (S (configure_runs p))).
Proof.
  intros Hconf Hdir Hopen. enter.
  rewrite Hdir. cbv beta iota. rewrite Hconf. cbn [negb log_file_path].
  cbv beta iota. rewrite Hopen. cbn. now rewrite Hconf.
Qed.

(** The configuring construction, from any unconfigured process. *)
Lemma configures :
  _configured p = false ->
  makedirs_error (computed_dir logger_file cwd input) = None ->
  open_error (posixpath.abspath cwd (computed_path logger_file cwd input)) = None ->
  __init__ logger_file cwd makedirs_error open_error (fst input) (snd input) p =
  (inr (mkCustomLogger (computed_dir logger_file cwd input)
                       (computed_path logger_file cwd input)),
   mkProcess true
     (match root_handlers p with
      | [] => installed_handlers cwd (computed_path logger_file cwd input)
      | _ :: _ => root_handlers p
      end)
     (match root_handlers p with
      | [] => INFO
      | _ :: _ => root_level p
      end)
     (Some pipeline)
     (opened_files p ++ [posixpath.abspath cwd (computed_path logger_file cwd input)])
     (S (configure_runs p))).
Proof.
  intros Hconf Hdir Hopen. enter.
  rewrite Hdir. cbv beta iota. rewrite Hconf. cbn [negb log_file_path].
  cbv beta iota. rewrite Hopen. cbn.
  destruct (root_handlers p); reflexivity.
Qed.

End Construction.

End construction_facts.

(** X3.  A construction whose log file cannot be opened raises the error
    of the file system and leaves the process unconfigured, without handlers
    and without a [structlog] configuration; the next construction then
    configures the process anew, with the log file of its own. *)
Theorem failed_configuration_is_retried
  (logger_file cwd : string) (makedirs_error open_error : string -> option exception)
  (first second : string * custom_logger.datetime) (e : exception) :
  makedirs_error (custom_logger.computed_dir logger_file cwd first) = None ->
  makedirs_error (custom_logger.computed_dir logger_file cwd second) = None ->
  open_error (posixpath.abspath cwd (custom_logger.computed_path logger_file cwd first))
  = Some e ->
  open_error (posixpath.abspath cwd (custom_logger.computed_path logger_file cwd second))
  = None ->
  exists p1 self p2,
    custom_logger.__init__ logger_file cwd makedirs_error open_error
      (fst first) (snd first) custom_logger.fresh_process = (inl e, p1) /\
    custom_logger._configured p1 = false /\
    custom_logger.root_handlers p1 = [] /\
    custom_logger.structlog_config p1 = None /\
    custom_logger.opened_files p1 = [] /\
    custom_logger.__init__ logger_file cwd makedirs_error open_error
      (fst second) (snd second) p1 = (inr self, p2) /\
    custom_logger._configured p2 = true /\
    custom_logger.root_handlers p2
    = custom_logger.installed_handlers cwd
        (custom_logger.computed_path logger_file cwd second) /\
    custom_logger.opened_files p2
    = [posixpath.abspath cwd (custom_logger.computed_path logger_file cwd second)] /\
    custom_logger.configure_runs p2 = 2.
Proof.
  intros Hd1 Hd2 Ho1 Ho2.
  eexists. eexists. eexists.
  split.
  - apply construction_facts.open_fails; [reflexivity|exact Hd1|exact Ho1].
  - cbn. repeat (split; [reflexivity|]).
    split.
    + apply construction_facts.configures; [reflexivity|exact Hd2|exact Ho2].
    + cbn. auto.
Qed.

Lemma failed_configuration_is_retried_witness :
  exists p1 self p2,
    custom_logger.__init__ Scenario.logger_file "/tmp" Scenario.always_succeeds
      (fun path => if path =? Scenario.repo ++ "/logs/log_11_04_2026_07_05_09.log"
                   then Some (PermissionError "[Errno 13] Permission denied")
                   else None)
      "logs" Scenario.morning custom_logger.fresh_process
    = (inl (PermissionError "[Errno 13] Permission denied"), p1) /\
    custom_logger.__init__ Scenario.logger_file "/tmp" Scenario.always_succeeds
      (fun path => if path =? Scenario.repo ++ "/logs/log_11_04_2026_07_05_09.log"
                   then Some (PermissionError "[Errno 13] Permission denied")
                   else None)
      "logs" Scenario.noon p1 = (inr self, p2) /\
    custom_logger.opened_files p2 = [Scenario.repo ++ "/logs/log_11_04_2026_12_00_00.log"] /\
    custom_logger.configure_runs p2 = 2.
Proof.
  destruct (failed_configuration_is_retried Scenario.logger_file "/tmp"
              Scenario.always_succeeds
              (fun path => if path =? Scenario.repo ++ "/logs/log_11_04_2026_07_05_09.log"
                           then Some (PermissionError "[Errno 13] Permission denied")
                           else None)
              ("logs", Scenario.morning) ("logs", Scenario.noon)
              (PermissionError "[Errno 13] Permission denied")
              eq_refl eq_refl eq_refl eq_refl)
    as [p1 [self [p2 [H1 [_ [_ [_ [_ [H2 [_ [_ [Hopened Hruns]]]]]]]]]]]].
  exists p1, self, p2. auto.
Defined.

(** X4.  When the root logger already has handlers at the first
    construction, [logging.basicConfig] installs nothing: the handlers and
    the level of the root logger stay as they were, although the log file
    has been opened, [structlog] is configured and the flag is set. *)
Theorem existing_root_handlers_are_kept
  (logger_file cwd : string) (makedirs_error open_error : string -> option exception)
  (input : string * custom_logger.datetime) (p : custom_logger.Process)
  (h : custom_logger.Handler) (hs : list custom_logger.Handler) :
  custom_logger._configured p = false ->
  custom_logger.root_handlers p = h :: hs ->
  makedirs_error (custom_logger.computed_dir logger_file cwd input) = None ->
  open_error (posixpath.abspath cwd (custom_logger.computed_path logger_file cwd input))
  = None ->
  exists self p',
    custom_logger.__init__ logger_file cwd makedirs_error open_error
      (fst input) (snd input) p = (inr self, p') /\
    custom_logger.root_handlers p' = h :: hs /\
    custom_logger.root_level p' = custom_logger.root_level p /\
    custom_logger.opened_files p'
    = (custom_logger.opened_files p
       ++ [posixpath.abspath cwd (custom_logger.computed_path logger_file cwd input)])%list /\
    custom_logger.structlog_config p' = Some custom_logger.pipeline /\
    custom_logger._configured p' = true.
Proof.
  intros Hconf Hroot Hdir Hopen.
  eexists. eexists. split.
  - apply construction_facts.configures; assumption.
  - cbn. rewrite Hroot. auto.
Qed.

Lemma existing_root_handlers_are_kept_witness :
  exists self p',
    custom_logger.__init__ Scenario.logger_file "/tmp"
      Scenario.always_succeeds Scenario.always_succeeds "logs" Scenario.morning
      (custom_logger.mkProcess false [custom_logger.StreamHandler] WARNING None [] 0)
    = (inr self, p') /\
    custom_logger.root_handlers p' = [custom_logger.StreamHandler] /\
    custom_logger.opened_files p' = [Scenario.repo ++ "/logs/log_11_04_2026_07_05_09.log"].
Proof.
  destruct (existing_root_handlers_are_kept Scenario.logger_file "/tmp"
              Scenario.always_succeeds Scenario.always_succeeds
              ("logs", Scenario.morning)
              (custom_logger.mkProcess false [custom_logger.StreamHandler] WARNING None [] 0)
              custom_logger.StreamHandler [] eq_refl eq_refl eq_refl eq_refl)
    as [self [p' [Hrun [Hroot [_ [Hopened _]]]]]].
  exists self, p'. auto.
Defined.

(** X5.  A construction changes nothing in the process when the process is
    configured already, and nothing either when its directory cannot be
    created: in the first case it returns its instance or raises the error
    of [os.makedirs], in the second it raises that error, configured or not. *)
Theorem construction_leaves_the_process_alone
  (logger_file cwd : string) (makedirs_error open_error : string -> option exception)
  (input : string * custom_logger.datetime) (p : custom_logger.Process) :
  (custom_logger._configured p = true ->
   custom_logger.__init__ logger_file cwd makedirs_error open_error (fst input) (snd input) p
   = (match makedirs_error (custom_logger.computed_dir logger_file cwd input) with
      | Some e => inl e
      | None => inr (custom_logger.mkCustomLogger
                       (custom_logger.computed_dir logger_file cwd input)
                       (custom_logger.computed_path logger_file cwd input))
      end, p)) /\
  (forall e,
      makedirs_error (custom_logger.computed_dir logger_file cwd input) = Some e ->
      custom_logger.__init__ logger_file cwd makedirs_error open_error (fst input) (snd input) p
      = (inl e, p)).
Proof.
  split.
  - intros Hconf.
    destruct (makedirs_error (custom_logger.computed_dir logger_file cwd input)) as [e|] eqn:Hdir.
    + now apply construction_facts.makedirs_fails.
    + now apply logger_facts.later_construction.
  - intros e Hdir. now apply construction_facts.makedirs_fails.
Qed.

Lemma construction_leaves_the_process_alone_witness :
  custom_logger.__init__ Scenario.logger_file "/tmp"
    (fun _ => Some (PermissionError "[Errno 13] Permission denied"))
    Scenario.always_succeeds "logs" Scenario.morning custom_logger.fresh_process
  = (inl (PermissionError "[Errno 13] Permission denied"), custom_logger.fresh_process).
Proof.
  destruct (construction_leaves_the_process_alone Scenario.logger_file "/tmp"
              (fun _ => Some (PermissionError "[Errno 13] Permission denied"))
              Scenario.always_succeeds ("logs", Scenario.morning)
              custom_logger.fresh_process) as [_ Hfail].
  exact (Hfail _ eq_refl).
Defined.

(** ** The name of the log file *)

Module strftime_facts.

Import pystr custom_logger logger_api.

Lemma digit_injective (a b : nat) : digit a = digit b -> a mod 10 = b mod 10.
Proof.
  unfold digit. intros H. apply (f_equal nat_of_ascii) in H.
  pose proof (Nat.mod_upper_bound a 10 ltac:(discriminate)) as Ha.
  pose proof (Nat.mod_upper_bound b 10 ltac:(discriminate)) as Hb.
  rewrite !nat_ascii_embedding in H by lia. lia.
Qed.

Lemma digit_not_sep (n : nat) : is_sep (digit n) = false.
Proof.
  unfold digit.
  pose proof (Nat.mod_upper_bound n 10 ltac:(discriminate)) as Hn.
  destruct (n mod 10) as [|[|[|[|[|[|[|[|[|[|k]]]]]]]]]]; try reflexivity; lia.
Qed.

Lemma two_digits (a b : nat) :
  a < 100 -> b < 100 ->
  (a / 10) mod 10 = (b / 10) mod 10 -> a mod 10 = b mod 10 -> a = b.
Proof.
  intros Ha Hb Htens Hunits.
  pose proof (Nat.div_mod_eq a 10) as Ea. pose proof (Nat.div_mod_eq b 10) as Eb.
  assert (a / 10 < 10) by (apply Nat.Div0.div_lt_upper_bound; lia).
  assert (b / 10 < 10) by (apply Nat.Div0.div_lt_upper_bound; lia).
  rewrite (Nat.mod_small (a / 10)) in Htens by assumption.
  rewrite (Nat.mod_small (b / 10)) in Htens by assumption.
  lia.
Qed.

Lemma pad2_injective (a b : nat) : a < 100 -> b < 100 -> pad2 a = pad2 b -> a = b.
Proof.
  intros Ha Hb H. unfold pad2 in H. injection H as Htens Hunits.
  apply two_digits; auto using digit_injective.
Qed.

Lemma four_digits (a b : nat) :
  a < 10 * 1000 -> b < 10 * 1000 ->
  (a / 1000) mod 10 = (b / 1000) mod 10 ->
  (a / 100) mod 10 = (b / 100) mod 10 ->
  (a / 10) mod 10 = (b / 10) mod 10 ->
  a mod 10 = b mod 10 -> a = b.
Proof.
  intros Ha Hb H3 H2 H1 H0.
  pose proof (Nat.div_mod_eq a 10) as Ea. pose proof (Nat.div_mod_eq b 10) as Eb.
  pose proof (Nat.div_mod_eq (a / 10) 10) as Ea1.
  pose proof (Nat.div_mod_eq (b / 10) 10) as Eb1.
  pose proof (Nat.div_mod_eq (a / 100) 10) as Ea2.
  pose proof (Nat.div_mod_eq (b / 100) 10) as Eb2.
  rewrite !Nat.Div0.div_div in Ea1, Eb1, Ea2, Eb2.
  change (10 * 10) with 100 in Ea1, Eb1.
  change (100 * 10) with 1000 in Ea2, Eb2.
  assert (Ha3 : a / 1000 < 10) by (apply Nat.Div0.div_lt_upper_bound; lia).
  assert (Hb3 : b / 1000 < 10) by (apply Nat.Div0.div_lt_upper_bound; lia).
  rewrite (Nat.mod_small (a / 1000)) in H3 by assumption.
  rewrite (Nat.mod_small (b / 1000)) in H3 by assumption.
  lia.
Qed.

Lemma pad4_injective (a b : nat) :
  a < 10 * 1000 -> b < 10 * 1000 -> pad4 a = pad4 b -> a = b.
Proof.
  intros Ha Hb H. unfold pad4, pad2 in H.
  injection H as H1000 H100 H10 H1.
  apply four_digits; auto using digit_injective.
Qed.

Lemma in_range_bounds (now : datetime) :
  in_range now = true ->
  year now < 10 * 1000 /\ month now < 100 /\ day now < 100 /\
  hour now < 100 /\ minute now < 100 /\ second now < 100.
Proof.
  unfold in_range. intros H.
  repeat (apply andb_prop in H; destruct H as [H ?]).
  repeat match goal with
         | Hle : Nat.leb _ _ = true |- _ => apply Nat.leb_le in Hle
         end.
  lia.
Qed.

(** The stamp has no slash in it. *)
Lemma stamped_name_sep_free (now : datetime) :
  contains_sep ("log_" ++ strftime now ++ ".log") = false.
Proof.
  unfold strftime, pad4, pad2. cbn [append contains_sep].
  rewrite !digit_not_sep. reflexivity.
Qed.

Lemma append_cancel (d x y : string) : d ++ x = d ++ y -> x = y.
Proof.
  induction d as [|c d IH]; cbn [append]; intros H; [exact H|].
  injection H as H. now apply IH.
Qed.

(** [os.path.join(d, x)] determines [x] when [x] is relative. *)
Lemma join2_name_injective (d x y : string) :
  startswith_sep x = false -> startswith_sep y = false ->
  posixpath.join2 d x = posixpath.join2 d y -> x = y.
Proof.
  unfold posixpath.join2. intros -> ->.
  destruct (negb (nonempty d) || endswith_sep d); intros H.
  - now apply append_cancel in H.
  - apply append_cancel in H. now injection H.
Qed.

End strftime_facts.

(** X6.  From the year 1000 on, two constructions with the same [log_dir]
    compute the same log file path only when they are made within the same
    second: the stamp [%m_%d_%Y_%H_%M_%S] determines the time to the second. *)
Theorem log_file_paths_differ_between_seconds
  (logger_file cwd log_dir : string) (a b : custom_logger.datetime) :
  logger_api.in_range a = true ->
  logger_api.in_range b = true ->
  custom_logger.computed_path logger_file cwd (log_dir, a)
  = custom_logger.computed_path logger_file cwd (log_dir, b) ->
  a = b.
Proof.
  intros Ha Hb Hpath.
  destruct (strftime_facts.in_range_bounds a Ha) as [Hy [Hmo [Hd [Hh [Hmi Hs]]]]].
  destruct (strftime_facts.in_range_bounds b Hb) as [Hy' [Hmo' [Hd' [Hh' [Hmi' Hs']]]]].
  assert (Hname : "log_" ++ custom_logger.strftime a ++ ".log"
                  = "log_" ++ custom_logger.strftime b ++ ".log").
  { unfold custom_logger.computed_path, posixpath.join in Hpath.
    cbn [fold_left snd] in Hpath.
    apply (strftime_facts.join2_name_injective _ _ _
             (pystr_facts.sep_free_not_startswith _ (strftime_facts.stamped_name_sep_free a))
             (pystr_facts.sep_free_not_startswith _ (strftime_facts.stamped_name_sep_free b))
             Hpath). }
  unfold custom_logger.strftime in Hname. cbn [append] in Hname.
  unfold custom_logger.pad4, custom_logger.pad2 in Hname. cbn [append] in Hname.
  injection Hname as Hmo1 Hmo2 Hd1 Hd2 Hy1 Hy2 Hy3 Hy4 Hh1 Hh2 Hmi1 Hmi2 Hs1 Hs2.
  assert (Emo : custom_logger.month a = custom_logger.month b)
    by (apply strftime_facts.pad2_injective; auto;
        exact (f_equal2 (fun x y => String x (String y "")) Hmo1 Hmo2)).
  assert (Ed : custom_logger.day a = custom_logger.day b)
    by (apply strftime_facts.pad2_injective; auto;
        exact (f_equal2 (fun x y => String x (String y "")) Hd1 Hd2)).
  assert (Ey : custom_logger.year a = custom_logger.year b).
  { apply strftime_facts.pad4_injective; auto.
    unfold custom_logger.pad4, custom_logger.pad2.
    f_equal; [exact Hy1|]. f_equal; [exact Hy2|]. f_equal; [exact Hy3|].
    f_equal. exact Hy4. }
  assert (Eh : custom_logger.hour a = custom_logger.hour b)
    by (apply strftime_facts.pad2_injective; auto;
        exact (f_equal2 (fun x y => String x (String y "")) Hh1 Hh2)).
  assert (Emi : custom_logger.minute a = custom_logger.minute b)
    by (apply strftime_facts.pad2_injective; auto;
        exact (f_equal2 (fun x y => String x (String y "")) Hmi1 Hmi2)).
  assert (Es : custom_logger.second a = custom_logger.second b)
    by (apply strftime_facts.pad2_injective; auto;
        exact (f_equal2 (fun x y => String x (String y "")) Hs1 Hs2)).
  destruct a, b. cbn in *. congruence.
Qed.

Lemma log_file_paths_differ_between_seconds_witness :
  logger_api.in_range Scenario.morning = true /\
  custom_logger.mkDatetime 2026 11 4 7 5 9 = Scenario.morning.
Proof.
  split; [reflexivity|].
  exact (log_file_paths_differ_between_seconds Scenario.logger_file "/tmp" "logs"
           (custom_logger.mkDatetime 2026 11 4 7 5 9) Scenario.morning
           eq_refl eq_refl eq_refl).
Defined.

(** ** The two modules in any checkout *)

Module checkout_facts.

Import pystr pystr_facts posixpath Layout layout_facts custom_logger logger_api.

Lemma absolute_snoc (l : list string) (x : string) :
  l <> [] -> absolute (l ++ [x]) = absolute l ++ String sep x.
Proof.
  intros Hl. unfold absolute. rewrite join_snoc by exact Hl.
  now rewrite append_assoc.
Qed.

Lemma stamped_name_ordinary (now : datetime) :
  ordinary ("log_" ++ strftime now ++ ".log") = true.
Proof.
  unfold ordinary, name_part.
  rewrite strftime_facts.stamped_name_sep_free. reflexivity.
Qed.

(** The directory and the file a default construction computes. *)
Lemma default_paths (repo : list string) (cwd : string) (now : datetime) :
  forallb ordinary repo = true ->
  computed_dir (logger_file_in repo) cwd ("logs", now) = absolute (repo ++ ["logs"]) /\
  computed_path (logger_file_in repo) cwd ("logs", now)
  = absolute (repo ++ ["logs"; "log_" ++ strftime now ++ ".log"]) /\
  abspath cwd (absolute (repo ++ ["logs"; "log_" ++ strftime now ++ ".log"]))
  = absolute (repo ++ ["logs"; "log_" ++ strftime now ++ ".log"]).
Proof.
  intros Hrepo. pose proof (ordinary_names _ Hrepo) as Hnames.
  assert (Hdir : computed_dir (logger_file_in repo) cwd ("logs", now)
                 = absolute (repo ++ ["logs"])).
  { unfold computed_dir. rewrite logger_root_in_checkout by exact Hrepo.
    unfold join. cbn [fold_left fst].
    now apply join2_absolute_name. }
  split; [exact Hdir|]. split.
  - unfold computed_path. rewrite Hdir. unfold join. cbn [fold_left snd].
    rewrite join2_absolute_name.
    + now rewrite <- app_assoc.
    + rewrite forallb_app, Hnames. reflexivity.
    + apply ordinary_name_part, stamped_name_ordinary.
  - unfold abspath.
    change (isabs (absolute (repo ++ ["logs"; "log_" ++ strftime now ++ ".log"]))) with true.
    cbv iota. apply normpath_ordinary.
    rewrite forallb_app, Hrepo. cbn [forallb].
    rewrite stamped_name_ordinary. reflexivity.
Qed.

(** The text of the loader's [__file__]: a directory, a slash, the name. *)
Lemma loader_file_split (repo : list string) :
  loader_file_in repo
  = absolute (repo ++ ["src"; "utlis"]) ++ String sep "config_loader.py".
Proof.
  unfold loader_file_in. rewrite <- absolute_snoc.
  - rewrite <- app_assoc. reflexivity.
  - destruct repo; discriminate.
Qed.

End checkout_facts.

(** X7.  Importing the loader module into a fresh process, in a checkout at
    any location [/<repo>], configures logging once with the file
    [/<repo>/logs/log_<stamp>.log], whatever the current directory, and
    binds the module's logger to the name [config_loader.py]. *)
Theorem importing_the_loader_configures_logging
  (repo : list string) (cwd : string)
  (makedirs_error open_error : string -> option exception)
  (now : custom_logger.datetime) :
  forallb Layout.ordinary repo = true ->
  makedirs_error (Layout.absolute (repo ++ ["logs"])) = None ->
  open_error (Layout.absolute
                (repo ++ ["logs"; "log_" ++ custom_logger.strftime now ++ ".log"])) = None ->
  logger_api.loader_module_log (Layout.logger_file_in repo) (Layout.loader_file_in repo)
    cwd makedirs_error open_error now custom_logger.fresh_process
  = (inr (logger_api.mkBoundLogger "config_loader.py"),
     custom_logger.mkProcess true
       [custom_logger.mkHandler
          (custom_logger.FileSink
             (Layout.absolute
                (repo ++ ["logs"; "log_" ++ custom_logger.strftime now ++ ".log"])))
          INFO (Some "%(message)s");
        custom_logger.mkHandler custom_logger.ConsoleSink INFO (Some "%(message)s")]
       INFO (Some custom_logger.pipeline)
       [Layout.absolute (repo ++ ["logs"; "log_" ++ custom_logger.strftime now ++ ".log"])]
       1).
Proof.
  intros Hrepo Hdir Hopen.
  destruct (checkout_facts.default_paths repo cwd now Hrepo) as [Edir [Epath Eabs]].
  unfold logger_api.loader_module_log, bind.
  change "logs" with (fst ("logs", now)) at 1.
  change now with (snd ("logs", now)) at 2.
  rewrite logger_facts.first_construction.
  - unfold ret, logger_api.get_logger, custom_logger.installed_handlers.
    rewrite Epath, Eabs, checkout_facts.loader_file_split.
    unfold posixpath.basename.
    rewrite logger_api_facts.after_last_sep_app by reflexivity.
    reflexivity.
  - now rewrite Edir.
  - now rewrite Epath, Eabs.
Qed.

Lemma importing_the_loader_configures_logging_witness :
  custom_logger.opened_files
    (snd (logger_api.loader_module_log
            (Layout.logger_file_in ["srv"; "app"]) (Layout.loader_file_in ["srv"; "app"])
            "/tmp" Scenario.always_succeeds Scenario.always_succeeds Scenario.morning
            custom_logger.fresh_process))
  = ["/srv/app/logs/log_11_04_2026_07_05_09.log"].
Proof.
  rewrite (importing_the_loader_configures_logging ["srv"; "app"] "/tmp"
             Scenario.always_succeeds Scenario.always_succeeds Scenario.morning
             eq_refl eq_refl eq_refl).
  reflexivity.
Defined.

(** X8.  The default path lies two levels above the resolved file of the
    loader module: when [Path(__file__).resolve()] is the absolute path
    [<base>/<d>/<f>], a call without argument and with [CONFIG_PATH] unset or
    empty resolves to [<base>/config/configuration.yaml].  For the module at
    [<repo>/src/utlis/config_loader.py] that is
    [<repo>/src/config/configuration.yaml]. *)
Theorem default_configuration_path_below_the_resolved_module
  (w : World) (rt : string) (base : list string) (d f : string) (log : Log) :
  resolve w (parse (config_loader_file w)) = mkPath rt (base ++ [d; f]) ->
  pystr.nonempty rt = true ->
  getenv w "CONFIG_PATH" = None \/ getenv w "CONFIG_PATH" = Some "" ->
  _project_root_dir w = inr (mkPath rt base) /\
  resolve_config_path w None log
  = (inr (mkPath rt (base ++ ["config"; "configuration.yaml"])), log).
Proof.
  intros Hresolved Hrt Henv.
  assert (Hroot : _project_root_dir w = inr (mkPath rt base)).
  { unfold _project_root_dir, parents. rewrite Hresolved. cbn [tail root].
    rewrite length_app. cbn [List.length].
    replace (Nat.leb (List.length base + 2) 1) with false
      by (symmetry; apply Nat.leb_gt; lia).
    replace (List.length base + 2 - 1 - 1) with (List.length base + 0) by lia.
    rewrite firstn_app_2. cbn [firstn]. now rewrite app_nil_r. }
  split; [exact Hroot|].
  rewrite (resolve_facts.resolve_default w (mkPath rt base) log Henv Hroot Hrt).
  unfold default_path, truediv_str, truediv. cbn.
  now rewrite <- !app_assoc.
Qed.

Lemma default_configuration_path_below_the_resolved_module_witness :
  fst (resolve_config_path
         (mkWorld Scenario.unset "/tmp" (Layout.loader_file_in ["srv"; "app"]) Scenario.disk)
         None [])
  = inr (mkPath "/" ["srv"; "app"; "src"; "config"; "configuration.yaml"]).
Proof.
  destruct (default_configuration_path_below_the_resolved_module
              (mkWorld Scenario.unset "/tmp" (Layout.loader_file_in ["srv"; "app"]) Scenario.disk)
              "/" ["srv"; "app"; "src"] "utlis" "config_loader.py" []
              eq_refl eq_refl (or_introl eq_refl)) as [_ Hpath].
  rewrite Hpath. reflexivity.
Defined.

(** ** Further properties of the loader *)

(** X9.  When the loader module lies too close to the root of the file
    system for [parents[1]] to exist, [_project_root_dir] raises
    [IndexError]: every call that needs the root (a relative path, or the
    default) then fails with the wrapped [IndexError] after one error call on
    the log, while a call with an absolute path is served as usual. *)
Theorem shallow_module_location
  (safe_load : string -> exception + yaml) (w : World) (log : Log) :
  List.length (tail (resolve w (parse (config_loader_file w)))) <= 1 ->
  _project_root_dir w = inl (IndexError "1") /\
  (forall p, is_absolute (parse p) = false ->
             load_config safe_load w (Some p) log
             = (inl (CustomException "Failed to load configuration file" (IndexError "1")),
                (log ++ [failed (IndexError "1")])%list)) /\
  (getenv w "CONFIG_PATH" = None \/ getenv w "CONFIG_PATH" = Some "" ->
   load_config safe_load w None log
   = (inl (CustomException "Failed to load configuration file" (IndexError "1")),
      (log ++ [failed (IndexError "1")])%list)) /\
  (forall p, is_absolute (parse p) = true ->
             resolve_config_path w (Some p) log = (inr (parse p), log)).
Proof.
  intros Hshallow.
  assert (Hroot : _project_root_dir w = inl (IndexError "1")).
  { unfold _project_root_dir, parents.
    apply Nat.leb_le in Hshallow. rewrite Hshallow. reflexivity. }
  split; [exact Hroot|]. split; [|split].
  - intros p Hp. apply load_facts.load_unresolved.
    rewrite resolve_facts.resolve_explicit. unfold located. now rewrite Hp, Hroot.
  - intros Henv. apply load_facts.load_unresolved.
    now apply resolve_facts.resolve_default_fails.
  - intros p Hp. rewrite resolve_facts.resolve_explicit. unfold located. now rewrite Hp.
Qed.

Lemma shallow_module_location_witness :
  load_config Scenario.documents
    (mkWorld Scenario.unset "/tmp" "/config_loader.py" Scenario.disk) (Some "app.yaml") []
  = (inl (CustomException "Failed to load configuration file" (IndexError "1")),
     [failed (IndexError "1")]) /\
  resolve_config_path
    (mkWorld Scenario.unset "/tmp" "/config_loader.py" Scenario.disk) (Some "/etc/app.yaml") []
  = (inr (parse "/etc/app.yaml"), []).
Proof.
  destruct (shallow_module_location Scenario.documents
              (mkWorld Scenario.unset "/tmp" "/config_loader.py" Scenario.disk) [])
    as [_ [Hrel [_ Habs]]].
  - vm_compute. apply le_n.
  - split.
    + apply (Hrel "app.yaml"). reflexivity.
    + apply (Habs "/etc/app.yaml"). reflexivity.
Defined.

(** X10.  A call never removes or changes what is on the log already; a
    successful call adds exactly one call, at level INFO, and so no error
    call; a failing call adds one or two calls, all at level ERROR. *)
Theorem load_config_only_appends_to_the_log
  (safe_load : string -> exception + yaml) (w : World)
  (config_path : option string) (log : Log) :
  exists events,
    snd (load_config safe_load w config_path log) = (log ++ events)%list /\
    match fst (load_config safe_load w config_path log) with
    | inr _ => exists ev, events = [ev] /\ level ev = INFO /\ count_errors events = 0
    | inl _ => (List.length events = 1 \/ List.length events = 2) /\
               count_errors events = List.length events
    end.
Proof.
  destruct (load_config safe_load w config_path log) as [[e|config] log'] eqn:Hrun.
  - destruct (load_facts.load_failure_cases safe_load w config_path log e log' Hrun)
      as [cause [_ [_ Hlog]]].
    destruct (missing_file w config_path log) as [path|].
    + destruct Hlog as [_ ->]. exists [not_found path; failed cause]. cbn. auto.
    + subst log'. exists [failed cause]. cbn. auto.
  - destruct (load_facts.load_success_cases safe_load w config_path log config log' Hrun)
      as [path [text [doc [_ [_ [_ [_ ->]]]]]]].
    exists [loaded path config]. cbn. split; [reflexivity|].
    exists (loaded path config). auto.
Qed.

(** X11.  The loader takes a path by what [pathlib] makes of it: a path
    written with repeated slashes, ["."] components or a trailing slash is
    loaded exactly as its normal spelling [str(Path(p))] is. *)
Theorem load_config_reads_the_normalised_path
  (safe_load : string -> exception + yaml) (w : World) (p : string) (log : Log) :
  parse (to_str (parse p)) = parse p /\
  load_config safe_load w (Some (to_str (parse p))) log
  = load_config safe_load w (Some p) log.
Proof.
  assert (Hnorm : parse (to_str (parse p)) = parse p)
    by apply pathlib_facts.parse_to_str, pathlib_facts.parse_well_formed.
  split; [exact Hnorm|].
  assert (Hres : resolve_config_path w (Some (to_str (parse p))) log
                 = resolve_config_path w (Some p) log).
  { rewrite !resolve_facts.resolve_explicit. unfold located. now rewrite Hnorm. }
  unfold load_config, load_config_body, try_except, bind.
  rewrite Hres. reflexivity.
Qed.

Lemma load_config_reads_the_normalised_path_example :
  to_str (parse ".//config/./empty.yaml/") = "config/empty.yaml".
Proof. reflexivity. Qed.

(** X12.  An explicit argument that is the empty string is not skipped the
    way an empty [CONFIG_PATH] is: it is a relative path with no component,
    so the loader targets the project root itself, and with a directory there
    the call fails with the wrapped [IsADirectoryError] after one error
    call. *)
Theorem empty_explicit_path_is_the_project_root
  (safe_load : string -> exception + yaml) (w : World) (r : Path) (log : Log) :
  _project_root_dir w = inr r ->
  resolve_config_path w (Some "") log = (inr r, log) /\
  (fs w (to_str r) = Directory ->
   load_config safe_load w (Some "") log
   = (inl (CustomException "Failed to load configuration file" (is_a_directory r)),
      (log ++ [failed (is_a_directory r)])%list)).
Proof.
  intros Hr.
  assert (Hpath : resolve_config_path w (Some "") log = (inr r, log)).
  { rewrite resolve_facts.resolve_explicit. unfold located. cbn. rewrite Hr.
    unfold truediv. cbn. rewrite app_nil_r. now destruct r. }
  split; [exact Hpath|].
  intros Hdir. now apply load_facts.load_directory.
Qed.

Lemma empty_explicit_path_is_the_project_root_witness :
  fst (load_config Scenario.documents
         (mkWorld Scenario.unset "/tmp" "/srv/app/src/utlis/config_loader.py"
                  (Scenario.files [("/srv/app/src", Directory)]))
         (Some "") [])
  = inl (CustomException "Failed to load configuration file"
           (IsADirectoryError "[Errno 21] Is a directory: '/srv/app/src'")).
Proof.
  destruct (empty_explicit_path_is_the_project_root Scenario.documents
              (mkWorld Scenario.unset "/tmp" "/srv/app/src/utlis/config_loader.py"
                       (Scenario.files [("/srv/app/src", Directory)]))
              (parse "/srv/app/src") [] eq_refl) as [_ Hload].
  rewrite (Hload eq_refl). reflexivity.
Defined.

(** ** The script of the loader module *)



(** ** The handlers of the root logger, whatever fails *)

Module handler_facts.

Import custom_logger.

Section Handlers.

Variable logger_file : string.
Variable cwd : string.
Variable makedirs_error : string -> option exception.
Variable open_error : string -> option exception.

(** One construction keeps the handlers of the root logger, or installs
    its own pair where there was none. *)
Lemma construction_handlers (input : string * datetime) (p : Process) :
  root_handlers
    (snd (__init__ logger_file cwd makedirs_error open_error (fst input) (snd input) p))
  = root_handlers p \/
  (root_handlers p = [] /\
   root_handlers
     (snd (__init__ logger_file cwd makedirs_error open_error (fst input) (snd input) p))
   = installed_handlers cwd (computed_path logger_file cwd input)).
Proof.
  destruct (makedirs_error (computed_dir logger_file cwd input)) as [e|] eqn:Hdir.
  - left. now rewrite (construction_facts.makedirs_fails _ _ _ open_error input p e Hdir).
  - destruct (_configured p) eqn:Hconf.
    + left. now rewrite (logger_facts.later_construction _ _ _ open_error input p Hconf Hdir).
    + destruct (open_error (posixpath.abspath cwd (computed_path logger_file cwd input)))
        as [e|] eqn:Hopen.
      * left. now rewrite (construction_facts.open_fails _ _ _ _ input p e Hconf Hdir Hopen).
      * rewrite (construction_facts.configures _ _ _ _ input p Hconf Hdir Hopen).
        cbn [snd root_handlers].
        destruct (root_handlers p); [right; split; reflexivity|left; reflexivity].
Qed.

(** The state a sequence of constructions leaves: that of the first one
    that raises, or of the last. *)
Lemma construct_all_state (log_dir : string) (now : datetime)
  (inputs : list (string * datetime)) (p : Process) :
  snd (construct_all logger_file cwd makedirs_error open_error ((log_dir, now) :: inputs) p)
  = match __init__ logger_file cwd makedirs_error open_error log_dir now p with
    | (inl _, p1) => p1
    | (inr _, p1) =>
        snd (construct_all logger_file cwd makedirs_error open_error inputs p1)
    end.
Proof.
  cbn [construct_all]. unfold bind, ret.
  destruct (__init__ logger_file cwd makedirs_error open_error log_dir now p)
    as [[e|self] p1]; [reflexivity|].
  destruct (construct_all logger_file cwd makedirs_error open_error inputs p1)
    as [[e|others] p2]; reflexivity.
Qed.

Lemma constructions_handlers (inputs : list (string * datetime)) (p : Process) :
  root_handlers (snd (construct_all logger_file cwd makedirs_error open_error inputs p))
  = root_handlers p \/
  (root_handlers p = [] /\
   exists input, In input inputs /\
     root_handlers (snd (construct_all logger_file cwd makedirs_error open_error inputs p))
     = installed_handlers cwd (computed_path logger_file cwd input)).
Proof.
  revert p. induction inputs as [|[log_dir now] inputs IH]; intros p; [now left|].
  rewrite construct_all_state.
  pose proof (construction_handlers (log_dir, now) p) as Hone. cbn [fst snd] in Hone.
  destruct (__init__ logger_file cwd makedirs_error open_error log_dir now p)
    as [[e|self] p1]; cbn [snd] in Hone.
  - destruct Hone as [Hone|[Hnil Hone]]; [now left|].
    right. split; [exact Hnil|]. exists (log_dir, now). split; [now left|exact Hone].
  - destruct (IH p1) as [Hrest|[Hnil1 [input [Hin Hrest]]]].
    + rewrite Hrest. destruct Hone as [Hone|[Hnil Hone]]; [now left|].
      right. split; [exact Hnil|]. exists (log_dir, now). split; [now left|exact Hone].
    + destruct Hone as [Hone|[Hnil Hone]].
      * right. split; [congruence|]. exists input. split; [now right|exact Hrest].
      * rewrite Hone in Hnil1. discriminate.
Qed.

End Handlers.

End handler_facts.

(** X14.  Whatever fails on the way, constructions never add to handlers
    that are installed: after any sequence of constructions the root logger
    has the handlers it had before when it had some, and otherwise either
    none or the one pair built for the log file of one of the constructions. *)
Theorem handlers_are_never_duplicated
  (logger_file cwd : string) (makedirs_error open_error : string -> option exception)
  (inputs : list (string * custom_logger.datetime)) (p : custom_logger.Process) :
  (custom_logger.root_handlers p <> [] ->
   custom_logger.root_handlers
     (snd (custom_logger.construct_all logger_file cwd makedirs_error open_error inputs p))
   = custom_logger.root_handlers p) /\
  (custom_logger.root_handlers p = [] ->
   custom_logger.root_handlers
     (snd (custom_logger.construct_all logger_file cwd makedirs_error open_error inputs p))
   = [] \/
   exists input, In input inputs /\
     custom_logger.root_handlers
       (snd (custom_logger.construct_all logger_file cwd makedirs_error open_error inputs p))
     = custom_logger.installed_handlers cwd
         (custom_logger.computed_path logger_file cwd input)).
Proof.
  pose proof (handler_facts.constructions_handlers logger_file cwd makedirs_error
                open_error inputs p) as [H|[Hnil [input [Hin H]]]].
  - split; [intros _; exact H|]. intros Hnil. left. now rewrite H.
  - split; [congruence|]. intros _. right. exists input. auto.
Qed.

Lemma handlers_are_never_duplicated_witness :
  custom_logger.root_handlers
    (snd (custom_logger.construct_all Scenario.logger_file "/tmp"
            Scenario.always_succeeds
            (fun path => if path =? Scenario.repo ++ "/logs/log_11_04_2026_12_00_00.log"
                         then Some (PermissionError "[Errno 13] Permission denied")
                         else None)
            [("logs", Scenario.noon); ("logs", Scenario.morning)]
            (custom_logger.mkProcess false [custom_logger.StreamHandler] WARNING None [] 0)))
  = [custom_logger.StreamHandler].
Proof.
  destruct (handlers_are_never_duplicated Scenario.logger_file "/tmp"
              Scenario.always_succeeds
              (fun path => if path =? Scenario.repo ++ "/logs/log_11_04_2026_12_00_00.log"
                           then Some (PermissionError "[Errno 13] Permission denied")
                           else None)
              [("logs", Scenario.noon); ("logs", Scenario.morning)]
              (custom_logger.mkProcess false [custom_logger.StreamHandler] WARNING None [] 0))
    as [Hkeep _].
  apply Hkeep. discriminate.
Defined.
